(** * Shallow embedding of the case-collection and parametrization core of
    pytest-cases: [common_pytest.py] and [case_parametrizer_new.py]. *)

From Stdlib Require Import List String Ascii ZArith QArith Bool Lia.
From Stdlib Require Import Sorting.Sorted.
Import ListNotations.
Open Scope string_scope.
Open Scope list_scope.
Set Warnings "-register-all".
Open Scope nat_scope.

(** ** Python runtime: exceptions and the error monad *)

Inductive exn : Type :=
| ValueError (msg : string)
| TypeError (msg : string)
| IndexError
| KeyError (key : string)
| AssertionError
| ImportError (name : string)
| NotImplementedError (msg : string).

Inductive res (A : Type) : Type :=
| Ok (a : A)
| Raise (e : exn).
Arguments Ok {A} a.
Arguments Raise {A} e.

Definition res_bind {A B} (r : res A) (k : A -> res B) : res B :=
  match r with
  | Ok a => k a
  | Raise e => Raise e
  end.

Notation "'let*' p ':=' c 'in' k" := (res_bind c (fun p => k))
  (at level 200, p pattern, c at level 100, k at level 200).

(** Marks (pytest [MarkDecorator]s) are opaque: only their names are kept. *)
Definition mark := string.

(** Python values that flow through a parametrization.  [PParam] is a
    [pytest.param(...)] [ParameterSet] (a namedtuple [(values, marks, id)]);
    [PLazy] is a [lazy_value], [PLazyItem] one of its lazily indexed items. *)
Inductive pyval : Type :=
| PNone
| PInt (z : Z)
| PStr (s : string)
| PTuple (l : list pyval)
| PLazy (tag : nat)
| PLazyItem (tag : nat) (i : nat)
| PParam (id : option string) (marks : list mark) (values : list pyval).

(** [len(v)] *)
Definition py_len (v : pyval) : res nat :=
  match v with
  | PStr s => Ok (String.length s)
  | PTuple l => Ok (List.length l)
  | PParam _ _ _ => Ok 3
  | _ => Raise (TypeError "object has no len()")
  end.

(** [list(v)] *)
Definition py_list (v : pyval) : res (list pyval) :=
  match v with
  | PStr s => Ok (map (fun c => PStr (String c EmptyString)) (list_ascii_of_string s))
  | PTuple l => Ok l
  | PParam id ms vs =>
      Ok [PTuple vs; PTuple (map PStr ms);
          match id with Some s => PStr s | None => PNone end]
  | _ => Raise (TypeError "object is not iterable")
  end.

(** ** ParameterSet api (common_pytest.py) *)

Definition is_marked_parameter_value (v : pyval) : bool :=
  match v with PParam _ _ _ => true | _ => false end.

(** [extract_pset_info_single(nbnames, argvalue)]: "Return id, marks, value". *)
Definition extract_pset_info_single (nbnames : nat) (argvalue : pyval)
  : res (option string * option (list mark) * pyval) :=
  match argvalue with
  | PParam _id marks values =>
      (* argvalue[0] if nbnames == 1 else argvalue *)
      if Nat.eqb nbnames 1 then
        match values with
        | v0 :: _ => Ok (_id, Some marks, v0)
        | [] => Raise IndexError
        end
      else Ok (_id, Some marks, PTuple values)
  | _ => Ok (None, None, argvalue)
  end.

Definition inconsistent_nb_msg : string :=
  "Inconsistent number of values in pytest parametrize".

(** [extract_parameterset_info(argnames, argvalues, check_nb)]; [argnames]
    is a list of names (a plain string is refused with a TypeError). *)
Fixpoint extract_parameterset_info_loop (nbnames : nat) (check_nb : bool)
    (argvalues : list pyval)
    (pids : list (option string)) (pmarks : list (option (list mark)))
    (pvalues : list pyval)
  : res (list (option string) * list (option (list mark)) * list pyval) :=
  match argvalues with
  | [] => Ok (pids, pmarks, pvalues)
  | v :: rest =>
      let* (_pid, _pmark, _pvalue) := extract_pset_info_single nbnames v in
      let pids := pids ++ [_pid] in
      let pmarks := pmarks ++ [_pmark] in
      let pvalues := pvalues ++ [_pvalue] in
      let* bad :=
        (if check_nb && Nat.ltb 1 nbnames then
           let* n := py_len _pvalue in Ok (negb (Nat.eqb n nbnames))
         else Ok false) in
      if bad then Raise (ValueError inconsistent_nb_msg)
      else extract_parameterset_info_loop nbnames check_nb rest pids pmarks pvalues
  end.

Definition extract_parameterset_info (argnames : list string) (argvalues : list pyval)
    (check_nb : bool) :=
  extract_parameterset_info_loop (List.length argnames) check_nb argvalues [] [] [].

(** ** Cartesian product (common_pytest.py, [_cart_product_pytest]) *)

(** Modelled from the spec: [is_lazy_value] and [lazy_value.as_lazy_items_list]
    (common_pytest_lazy_values.py): a deferred multi-value is split into its
    [n] lazily indexed components. *)
Definition is_lazy_value (v : pyval) : bool :=
  match v with PLazy _ => true | _ => false end.

Definition as_lazy_items_list (tag : nat) (n : nat) : list pyval :=
  map (PLazyItem tag) (seq 0 n).

Definition forbidden_id_msg : string :=
  "It is not possible to specify a sub-param id when using the new parametrization style. Either use the traditional style or customize all ids at once in `idgen`".

(** Handling of one entry [x] of the first dimension: steps (1) and (2). *)
Definition cart_entry (argnames_lists : list (list string)) (x : pyval)
  : res (list mark * list pyval) :=
  match argnames_lists with
  | [] => Raise IndexError
  | names0 :: _ =>
      let nb_names := List.length names0 in
      (* (1) extract meta-info *)
      let* (x_id, x_marks, x_value) := extract_pset_info_single nb_names x in
      let x_marks_lst := match x_marks with Some l => l | None => [] end in
      match x_id with
      | Some _ => Raise (ValueError forbidden_id_msg)
      | None =>
          (* (2) possibly unpack *)
          let* x_value_lst :=
            (if Nat.ltb 1 nb_names then
               match x_value with
               | PLazy t => Ok (as_lazy_items_list t nb_names)
               | _ => py_list x_value
               end
             else Ok [x_value]) in
          Ok (x_marks_lst, x_value_lst)
      end
  end.

(** The [for x in argvalues[0]] loop; [sub_product] is [None] when there is
    a single dimension. *)
Fixpoint cart_loop (argnames_lists : list (list string))
    (sub_product : option (list (list mark * list pyval)))
    (xs : list pyval) (result : list (list mark * list pyval))
  : res (list (list mark * list pyval)) :=
  match xs with
  | [] => Ok result
  | x :: xs' =>
      let* (x_marks_lst, x_value_lst) := cart_entry argnames_lists x in
      let result :=
        match sub_product with
        | Some sp => result ++ map (fun '(m, p) => (x_marks_lst ++ m, x_value_lst ++ p)) sp
        | None => result ++ [(x_marks_lst, x_value_lst)]
        end in
      cart_loop argnames_lists sub_product xs' result
  end.

Fixpoint _cart_product_pytest (argnames_lists : list (list string))
    (argvalues : list (list pyval)) : res (list (list mark * list pyval)) :=
  match argvalues with
  | [] => Raise IndexError
  | xs0 :: rest =>
      let* sub_product :=
        (match rest with
         | [] => Ok None
         | _ :: _ =>
             let* sp := _cart_product_pytest (tl argnames_lists) rest in Ok (Some sp)
         end) in
      cart_loop argnames_lists sub_product xs0 []
  end.

(** ** Test ids (common_pytest.py, [make_test_ids]) *)

(** The global [ids] argument: an explicit list of ids, or a callable
    applied on each value ([list(global_ids)] raises a TypeError). *)
Inductive global_ids_t : Type :=
| GIdList (l : list string)
| GIdCallable (f : pyval -> string).

(** [lst[i] = x] on a Python list. *)
Fixpoint list_setitem {A} (l : list A) (i : nat) (x : A) : res (list A) :=
  match l, i with
  | [], _ => Raise IndexError
  | _ :: t, O => Ok (x :: t)
  | h :: t, S i' => let* t' := list_setitem t i' x in Ok (h :: t')
  end.

Section TestIds.

(** [mini_idvalset(argnames, argvalues_tuple, idx)]: the value-based id of one
    parameter tuple (defined outside the two files embedded here). *)
Variable mini_idvalset : list string -> pyval -> nat -> string.

Fixpoint ids_single (param_names : list string) (vs : list pyval) (idx : nat)
  : list string :=
  match vs with
  | [] => []
  | v :: r => mini_idvalset param_names (PTuple [v]) idx :: ids_single param_names r (S idx)
  end.

Fixpoint ids_multi (param_names : list string) (nb_params : nat) (vs : list pyval)
    (idx : nat) : res (list string) :=
  match vs with
  | [] => Ok []
  | vv :: r =>
      let* n := py_len vv in
      if negb (Nat.eqb n nb_params) then
        Raise (ValueError "Inconsistent lenghts for parameter names and values")
      else
        let* rest := ids_multi param_names nb_params r (S idx) in
        Ok (mini_idvalset param_names vv idx :: rest)
  end.

Definition make_test_ids_from_param_values (param_names : option (list string))
    (param_values : option (list pyval)) : res (list string) :=
  match param_names with
  | None => Raise (TypeError "object of type 'NoneType' has no len()")
  | Some names =>
      match List.length names with
      | O => Raise (ValueError "empty list provided")
      | nb_params =>
          match param_values with
          | None => Raise (TypeError "'NoneType' object is not iterable")
          | Some vs =>
              if Nat.eqb nb_params 1 then Ok (ids_single names vs 0)
              else ids_multi names nb_params vs 0
          end
      end
  end.

(** Final loop: a non-None id mark [i] overwrites [p_ids[i]]. *)
Fixpoint override_ids (p_ids : list string) (id_marks : list (option string)) (i : nat)
  : res (list string) :=
  match id_marks with
  | [] => Ok p_ids
  | m :: r =>
      let* p := match m with
                | Some _id => list_setitem p_ids i _id
                | None => Ok p_ids
                end in
      override_ids p r (S i)
  end.

Definition make_test_ids (global_ids : option global_ids_t)
    (id_marks : list (option string)) (argnames : option (list string))
    (argvalues : option (list pyval)) (precomputed_ids : option (list string))
  : res (list string) :=
  let* p_ids :=
    (match global_ids with
     | Some (GIdList l) => Ok l
     | Some (GIdCallable f) =>
         match argvalues with
         | Some vs => Ok (map f vs)
         | None => Raise (TypeError "'NoneType' object is not iterable")
         end
     | None =>
         match precomputed_ids with
         | Some pre =>
             match argnames, argvalues with
             | None, None => Ok pre
             | _, _ => Raise (ValueError "Only one of `precomputed_ids` or argnames/argvalues should be provided.")
             end
         | None => make_test_ids_from_param_values argnames argvalues
         end
     end) in
  override_ids p_ids id_marks 0.

End TestIds.

(** ** Case collection (case_parametrizer_new.py) *)

(** Collection runs with a list of emitted warnings and may raise. *)
Definition M (A : Type) : Type := list string -> res A * list string.

Definition M_ret {A} (a : A) : M A := fun w => (Ok a, w).
Definition M_raise {A} (e : exn) : M A := fun w => (Raise e, w).
Definition M_bind {A B} (m : M A) (k : A -> M B) : M B :=
  fun w =>
    match m w with
    | (Ok a, w') => k a w'
    | (Raise e, w') => (Raise e, w')
    end.
Definition M_lift {A} (r : res A) : M A := fun w => (r, w).
(** [warn(CasesCollectionWarning(msg))] *)
Definition warn (msg : string) : M unit := fun w => (Ok tt, w ++ [msg]).

Notation "'mlet' p ':=' c 'in' k" := (M_bind c (fun p => k))
  (at level 200, p pattern, c at level 100, k at level 200).

(** A function object as seen by the collector: its [__name__], [__module__],
    first source line, the [CaseInfo] attached by [@case] (its custom id, if
    any) and its pytest marks. *)
Record func : Type := mkFunc {
  fn_name : string;
  fn_module : string;
  fn_line : Z;
  fn_info : option string;
  fn_marks : list mark
}.

(** How a name is declared in a class [__dict__]. *)
Inductive member_kind : Type :=
| PlainMember
| StaticMember
| ClassMember.

(** Members returned by [inspect.getmembers]; a class carries its name,
    [__module__], first line, whether [__init__] / [__new__] differ from
    [object]'s, its members (own and inherited, as [getmembers] lists them)
    and its own [__dict__]. *)
Inductive member : Type :=
| MFun (f : func)
| MClass (c : cls)
| MOther (modname : option string)
with cls : Type :=
| Cls (cls_name : string) (cls_module : string) (cls_line : Z)
      (own_init own_new : bool)
      (cls_members : list (string * member))
      (cls_dict : list (string * member_kind)).

Definition cls_name (c : cls) : string := let 'Cls n _ _ _ _ _ _ := c in n.
Definition cls_module (c : cls) : string := let 'Cls _ m _ _ _ _ _ := c in m.
Definition cls_line (c : cls) : Z := let 'Cls _ _ l _ _ _ _ := c in l.
Definition cls_members (c : cls) : list (string * member) :=
  let 'Cls _ _ _ _ _ ms _ := c in ms.
Definition cls_dict (c : cls) : list (string * member_kind) :=
  let 'Cls _ _ _ _ _ _ d := c in d.

(** [hasinit(obj)] and [hasnew(obj)] *)
Definition hasinit (c : cls) : bool := let 'Cls _ _ _ i _ _ _ := c in i.
Definition hasnew (c : cls) : bool := let 'Cls _ _ _ _ n _ _ := c in n.

Record pymodule : Type := mkModule {
  mod_name : string;
  mod_members : list (string * member)
}.

(** A collected case: the case function itself, or (for a method of a case
    class) [partial(m, cls())] with [host_class], [__name__], [CaseInfo] and
    marks copied from [m]. *)
Inductive case_item : Type :=
| CaseFun (f : func)
| CasePartial (f : func) (self_of : string) (host_class : string)
              (name : string) (info : option string) (marks : list mark).

(** [cases_dct]: a Python dict from line numbers (ints, or floats for the
    cases of nested classes, here exact rationals) to cases. *)
Definition cases_dict := list (Q * case_item).

(** [cases_dct[k] = v]: an equal key keeps its slot, a new key is appended. *)
Fixpoint dict_setitem (d : cases_dict) (k : Q) (v : case_item) : cases_dict :=
  match d with
  | [] => [(k, v)]
  | (k', v') :: r => if Qeq_bool k' k then (k', v) :: r else (k', v') :: dict_setitem r k v
  end.

Fixpoint dict_getitem (d : cases_dict) (k : Q) : res case_item :=
  match d with
  | [] => Raise (KeyError "line number")
  | (k', v) :: r => if Qeq_bool k' k then Ok v else dict_getitem r k
  end.

Fixpoint insert_key (k : Q) (l : list Q) : list Q :=
  match l with
  | [] => [k]
  | h :: t => if Qle_bool k h then k :: l else h :: insert_key k t
  end.

(** [sorted(cases_dct.keys())] *)
Definition sorted_keys (d : cases_dict) : list Q := fold_right insert_key [] (map fst d).

Fixpoint res_map {A B} (f : A -> res B) (l : list A) : res (list B) :=
  match l with
  | [] => Ok []
  | x :: r => let* y := f x in let* ys := res_map f r in Ok (y :: ys)
  end.

(** [[cases_dct[k] for k in sorted(cases_dct.keys())]] *)
Definition sorted_cases (d : cases_dict) : res (list case_item) :=
  res_map (dict_getitem d) (sorted_keys d).

(** [gen_line_nb = co_firstlineno + (_i / len(cls_cases))] *)
Definition gen_line_nb (co_firstlineno : Z) (i n : nat) : Q :=
  inject_Z co_firstlineno + inject_Z (Z.of_nat i) / inject_Z (Z.of_nat n).

(** [for _i, _m_item in enumerate(cls_cases): cases_dct[gen_line_nb] = _m_item] *)
Fixpoint add_nested_cases (dct : cases_dict) (co_firstlineno : Z) (n : nat)
    (items : list case_item) (i : nat) : cases_dict :=
  match items with
  | [] => dct
  | it :: r =>
      add_nested_cases
        (dict_setitem dct (gen_line_nb co_firstlineno i n) it)
        co_firstlineno n r (S i)
  end.

Fixpoint assoc_lookup {A} (l : list (string * A)) (k : string) : option A :=
  match l with
  | [] => None
  | (k', v) :: r => if String.eqb k' k then Some v else assoc_lookup r k
  end.

Section Collection.

(** [is_case_class(cls, check_name)] and [is_case_function(f, prefix,
    check_prefix)] (case_funcs_new.py): the collector's recognisers, which
    only ever accept classes, respectively functions. *)
Variable is_case_class : cls -> bool -> bool.
Variable is_case_function : func -> string -> bool -> bool.

(** One iteration of the [for m_name, m in getmembers(container, _of_interest)]
    loop of [_extract_cases_from_module_or_class] ([_case_param_factory] is
    [None], as in every call made by [get_all_cases]); [extract_nested] is
    [extract_cases_from_class(m, case_fun_prefix=...)]. *)
Definition extract_member (extract_nested : cls -> M (list case_item))
    (cls_opt : option cls) (case_fun_prefix : string)
    (dct : cases_dict) (nm : string * member) : M cases_dict :=
  let (m_name, m) := nm in
  match m with
  | MClass c' =>
      if is_case_class c' true then
        let co_firstlineno := cls_line c' in
        mlet cls_cases := extract_nested c' in
        M_ret (add_nested_cases dct co_firstlineno (List.length cls_cases) cls_cases 0)
      else M_ret dct
  | MFun f =>
      if is_case_function f case_fun_prefix true then
        let co_firstlineno := fn_line f in
        match cls_opt with
        | Some c =>
            (* cls.__dict__[m_name] *)
            match assoc_lookup (cls_dict c) m_name with
            | None => M_raise (KeyError m_name)
            | Some StaticMember | Some ClassMember => M_ret dct  (* skip it *)
            | Some PlainMember =>
                let new_m := CasePartial f (cls_name c) (cls_name c)
                                         (fn_name f) (fn_info f) (fn_marks f) in
                M_ret (dict_setitem dct (inject_Z co_firstlineno) new_m)
            end
        | None => M_ret (dict_setitem dct (inject_Z co_firstlineno) (CaseFun f))
        end
      else M_ret dct
  | MOther _ => M_ret dct
  end.

Fixpoint scan_members (extract_nested : cls -> M (list case_item))
    (cls_opt : option cls) (case_fun_prefix : string)
    (ms : list (string * member)) (dct : cases_dict) : M cases_dict :=
  match ms with
  | [] => M_ret dct
  | nm :: rest =>
      mlet dct := extract_member extract_nested cls_opt case_fun_prefix dct nm in
      scan_members extract_nested cls_opt case_fun_prefix rest dct
  end.

(** [_of_interest] for a module: [f.__module__ == module.__name__], [False]
    when the member has no [__module__]. *)
Definition of_interest_module (md : pymodule) (nm : string * member) : bool :=
  match snd nm with
  | MFun f => String.eqb (fn_module f) (mod_name md)
  | MClass c => String.eqb (cls_module c) (mod_name md)
  | MOther (Some mn) => String.eqb mn (mod_name md)
  | MOther None => false
  end.

Definition _extract_cases_from_module_or_class
    (extract_nested : cls -> M (list case_item))
    (module : option pymodule) (cls_opt : option cls) (case_fun_prefix : string)
  : M (list case_item) :=
  let members :=
    match module, cls_opt with
    | Some md, None => Some (filter (of_interest_module md) (mod_members md))
    | None, Some c => Some (cls_members c)
    | _, _ => None
    end in
  match members with
  | None => M_raise (ValueError "Only one of cls or module should be provided")
  | Some ms =>
      mlet cases_dct := scan_members extract_nested cls_opt case_fun_prefix ms [] in
      M_lift (sorted_cases cases_dct)
  end.

Definition init_warning (c : cls) : string :=
  ("cannot collect cases class '" ++ cls_name c ++ "' because it has a __init__ constructor")%string.
Definition new_warning (c : cls) : string :=
  ("cannot collect test class '" ++ cls_name c ++ "' because it has a __new__ constructor")%string.

Fixpoint extract_cases_from_class (c : cls) (check_name : bool)
    (case_fun_prefix : string) {struct c} : M (list case_item) :=
  if is_case_class c check_name then
    if hasinit c then
      mlet _ := warn (init_warning c) in M_ret []
    else if hasnew c then
      mlet _ := warn (new_warning c) in M_ret []
    else
      _extract_cases_from_module_or_class
        (fun c' => extract_cases_from_class c' true case_fun_prefix)
        None (Some c) case_fun_prefix
  else M_ret [].

(** *** Module names and [importlib.import_module] *)

Fixpoint split_dot_aux (s cur : string) : list string :=
  match s with
  | EmptyString => [cur]
  | String c r =>
      if Ascii.eqb c "." then cur :: split_dot_aux r EmptyString
      else split_dot_aux r (cur ++ String c EmptyString)%string
  end.

(** [s.split('.')] *)
Definition split_dot (s : string) : list string := split_dot_aux s EmptyString.

Fixpoint count_leading_dots (s : string) : nat :=
  match s with
  | String c r => if Ascii.eqb c "." then S (count_leading_dots r) else O
  | EmptyString => O
  end.

(** Name resolution of [import_module(name, package)] (importlib): a
    relative name needs a package, and [package.rsplit('.', level - 1)[0]]
    is its base. *)
Definition resolve_name (name : string) (package : option string) : res string :=
  let level := count_leading_dots name in
  if Nat.eqb level 0 then
    if String.eqb name EmptyString then Raise (ValueError "Empty module name") else Ok name
  else
    match package with
    | None | Some EmptyString =>
        Raise (TypeError "the 'package' argument is required to perform a relative import")
    | Some pkg =>
        let rest := substring level (String.length name - level) name in
        let bits := split_dot pkg in
        if Nat.ltb (List.length bits) level then
          Raise (ImportError "attempted relative import beyond top-level package")
        else
          let base := String.concat "." (firstn (List.length bits - (level - 1)) bits) in
          Ok (if String.eqb rest EmptyString then base else (base ++ "." ++ rest)%string)
    end.

(** The importable modules. *)
Variable sys_modules : list pymodule.

Definition import_module (name : string) (package : option string) : res pymodule :=
  let* full := resolve_name name package in
  match find (fun md => String.eqb (mod_name md) full) sys_modules with
  | Some md => Ok md
  | None => Raise (ImportError full)
  end.

Inductive module_ref : Type :=
| MRName (s : string)
| MRObj (md : pymodule).

Definition extract_cases_from_module (module : module_ref) (package_name : option string)
    (case_fun_prefix : string) : M (list case_item) :=
  mlet md := (match module with
              | MRName s => M_lift (import_module s package_name)
              | MRObj md => M_ret md
              end) in
  _extract_cases_from_module_or_class
    (fun c' => extract_cases_from_class c' true case_fun_prefix)
    (Some md) None case_fun_prefix.

(** *** [import_default_cases_module] *)

(** The decorated test function: its [__module__] and its [%r]. *)
Record test_fun : Type := mkTestFun {
  tf_module : string;
  tf_repr : string
}.

(** [%r] of a module name (names hold no quote nor backslash). *)
Definition py_repr_str (s : string) : string := ("'" ++ s ++ "'")%string.

Definition auto_import_msg (f : test_fun) (alt_name : bool) (cases_module_name : string)
  : string :=
  ("Error importing test cases module to parametrize function " ++ tf_repr f ++
  ": unable to import AUTO" ++ (if alt_name then "2" else "") ++
  " cases module " ++ py_repr_str cases_module_name ++
  ". Maybe you wish to import cases from somewhere else ? In that case please specify `cases=...`.")%string.

Definition default_cases_module_name (f : test_fun) (alt_name : bool) : res string :=
  if alt_name then
    let parts := split_dot (tf_module f) in
    let lastp := last parts EmptyString in
    if String.eqb (substring 0 5 lastp) "test_" then
      Ok (String.concat "." (removelast parts) ++ ".cases_" ++
          substring 5 (String.length lastp - 5) lastp)%string
    else Raise AssertionError
  else Ok (tf_module f ++ "_cases")%string.

Definition import_default_cases_module (f : test_fun) (alt_name : bool) : res pymodule :=
  let* cases_module_name := default_cases_module_name f alt_name in
  match import_module cases_module_name None with
  | Raise (ImportError _) => Raise (ValueError (auto_import_msg f alt_name cases_module_name))
  | r => r
  end.

(** *** [get_all_cases] *)

(** The elements of [cases] (a single element is first wrapped in a tuple). *)
Inductive provider : Type :=
| PvClass (c : cls)
| PvFun (f : func)
| PvModuleName (s : string)
| PvModule (md : pymodule)
| PvAUTO
| PvAUTO2
| PvTHIS_MODULE.

(** Default prefix [CASE_PREFIX_FUN] (case_funcs_new.py). *)
Variable CASE_PREFIX_FUN : string.

(** The final filter [CaseInfo.get_from(c, create=True, ...) and
    matches_tag_query(c, has_tag=..., filter=...)], with the [glob] and
    [filter] arguments already validated and merged. *)
Variable matches_tag_query : case_item -> bool.

Definition collect_provider (parametrization_target : test_fun) (prefix : string)
    (c : provider) : M (list case_item) :=
  let caller_module_name := tf_module parametrization_target in
  let parent_pkg_name := String.concat "." (removelast (split_dot caller_module_name)) in
  let from_module mref := extract_cases_from_module mref (Some parent_pkg_name) prefix in
  match c with
  | PvClass k => extract_cases_from_class k false prefix
  | PvFun f =>
      if is_case_function f CASE_PREFIX_FUN false then M_ret [CaseFun f]
      else M_raise (ValueError "Unsupported case function")
  | PvAUTO =>
      mlet md := M_lift (import_default_cases_module parametrization_target false) in
      from_module (MRObj md)
  | PvAUTO2 =>
      mlet md := M_lift (import_default_cases_module parametrization_target true) in
      from_module (MRObj md)
  | PvTHIS_MODULE => from_module (MRName caller_module_name)
  | PvModuleName s =>
      if String.eqb s "." then from_module (MRName caller_module_name)
      else from_module (MRName s)
  | PvModule md => from_module (MRObj md)
  end.

Fixpoint collect_all (parametrization_target : test_fun) (prefix : string)
    (cases : list provider) (cases_funs : list case_item) : M (list case_item) :=
  match cases with
  | [] => M_ret cases_funs
  | c :: rest =>
      mlet new_cases := collect_provider parametrization_target prefix c in
      collect_all parametrization_target prefix rest (cases_funs ++ new_cases)
  end.

Definition get_all_cases (parametrization_target : test_fun) (cases : list provider)
    (prefix : string) : M (list case_item) :=
  mlet cases_funs := collect_all parametrization_target prefix cases [] in
  M_ret (filter matches_tag_query cases_funs).

End Collection.

(** ** From cases to argvalues ([case_to_argvalues]) *)

(** Class objects, by identity (two classes of the same name are distinct
    objects). *)
Definition class_id := nat.

(** The objects fixtures are placed on: the case's module (the one
    [import_module] returns for its name: [sys.modules] holds one module per
    name), or its host class object. *)
Inductive host : Type :=
| HModule (name : string)
| HClass (c : class_id).

Definition host_eqb (h1 h2 : host) : bool :=
  match h1, h2 with
  | HModule a, HModule b => String.eqb a b
  | HClass a, HClass b => Nat.eqb a b
  | _, _ => false
  end.

(** A value held by an attribute: a fixture created from a case function,
    [None], or any other object. *)
Inductive host_attr : Type :=
| AFixture (name : string) (producer : func)
| ANone
| AOther.

(** The [__dict__] of every module and every class object (bases and
    [object] included): the attribute a name is bound to there, if any. *)
Definition store := host -> string -> option host_attr.

(** [setattr(host, name, v)] binds [name] in the [__dict__] of [host]. *)
Definition store_set (s : store) (h : host) (k : string) (v : host_attr) : store :=
  fun h' k' => if host_eqb h h' && String.eqb k k' then Some v else s h' k'.

Definition empty_store : store := fun _ _ => None.

(** A pytest [CallSpec2] computed by [MiniMetafunc]. *)
Record callspec : Type := mkCallspec {
  cs_funcargs : list (string * pyval);
  cs_id : string;
  cs_marks : list mark
}.

(** A case function as [case_to_argvalues] sees it: the function (unwrapped
    from the [partial] created for a class method, whose [host_class] is
    kept), its [CaseInfo] id and marks, and what [MiniMetafunc] computes:
    [fixturenames], [is_parametrized] and [_calls]. *)
Record case_fun : Type := mkCaseFun {
  cf_func : func;
  cf_host_class : option class_id;
  cf_id : string;
  cf_marks : list mark;
  cf_fixturenames : list string;
  cf_is_parametrized : bool;
  cf_calls : list callspec
}.

(** [MiniMetafunc.requires_fixtures]: the [fixturenames] not bound by the
    first call ([self._calls[0]]) when parametrized, else all of them. *)
Definition requires_fixtures (c : case_fun) : res bool :=
  if cf_is_parametrized c then
    match cf_calls c with
    | [] => Raise IndexError
    | c0 :: _ =>
        Ok (existsb (fun n => negb (existsb (fun '(k, _) => String.eqb k n) (cs_funcargs c0)))
                    (cf_fixturenames c))
    end
  else Ok (negb (Nat.eqb (List.length (cf_fixturenames c)) 0)).

(** Produced argvalues: [lazy_value(partial(case_fun, **funcargs), id, marks)]
    or [fixture_ref(name)]. *)
Inductive argvalue_out : Type :=
| LazyValue (c : case_fun) (funcargs : list (string * pyval)) (id : string) (marks : list mark)
| FixtureRef (name : string).

(** A tuple of argvalues, or [make_marked_parameter_value(tuple, marks)]. *)
Inductive c2a_result : Type :=
| ArgTuple (l : list argvalue_out)
| ArgMarked (vals : list argvalue_out) (marks : list mark).

Definition not_implemented_msg : string :=
  "We should check if this is the same or another and generate a new name in that case".

(** [host_cls or host_module]: the host class of a class case (kept on the
    [partial]), else the module of the case function. *)
Definition fixture_host (case : case_fun) : host :=
  match cf_host_class case with
  | Some k => HClass k
  | None => HModule (fn_module (cf_func case))
  end.

Section Getattr.

(** [cls.__mro__[1:]]: the bases of a class object in method resolution
    order, [object] last. *)
Variable class_bases : class_id -> list class_id.

(** What [getattr(host, name)] gives when no [__dict__] on the host's lookup
    chain binds [name]: an attribute found through the host's type (the
    metaclass of a class, the module type of a module) or a module's
    [__getattr__]; [None] when an [AttributeError] is raised. *)
Variable type_attr : host -> string -> option host_attr.

(** The dicts [getattr] searches, in order: the module's own; the class's
    and then those of its bases ([__mro__]). *)
Definition attr_chain (h : host) : list host :=
  match h with
  | HModule _ => [h]
  | HClass c => HClass c :: map HClass (class_bases c)
  end.

Fixpoint first_attr (st : store) (hs : list host) (k : string) : option host_attr :=
  match hs with
  | [] => None
  | h :: r => match st h k with
              | Some a => Some a
              | None => first_attr st r k
              end
  end.

(** [getattr(host, name, None)] *)
Definition getattr (st : store) (h : host) (k : string) : option host_attr :=
  match first_attr st (attr_chain h) k with
  | Some a => Some a
  | None => type_attr h k
  end.

(** [x is None] for the result of [getattr(host, name, None)]. *)
Definition is_none_attr (a : option host_attr) : bool :=
  match a with
  | None | Some ANone => true
  | Some _ => false
  end.

Definition case_to_argvalues (case : case_fun) (st : store) : res c2a_result * store :=
  let case_id := cf_id case in
  let case_marks := cf_marks case in
  match requires_fixtures case with
  | Raise e => (Raise e, st)
  | Ok false =>
      if negb (cf_is_parametrized case) then
        (* single unparametrized case function *)
        (Ok (ArgTuple [LazyValue case [] case_id case_marks]), st)
      else
        (* one version of the callable for each parametrized call *)
        (Ok (ArgTuple (map (fun cs => LazyValue case (cs_funcargs cs)
                                               (case_id ++ "-" ++ cs_id cs)%string (cs_marks cs))
                           (cf_calls case))), st)
  | Ok true =>
      let h := fixture_host case in
      let existing_fix := getattr st h case_id in
      if is_none_attr existing_fix then
        let st := store_set st h case_id (AFixture case_id (cf_func case)) in
        let argvalues_tuple := [FixtureRef case_id] in
        (Ok (match case_marks with
             | [] => ArgTuple argvalues_tuple
             | _ => ArgMarked argvalues_tuple case_marks
             end), st)
      else (Raise (NotImplementedError not_implemented_msg), st)
  end.

End Getattr.


(** A raw entry carrying its own id: [pytest.param(..., id=<not None>)]. *)
Definition has_explicit_id (x : pyval) : bool :=
  match x with
  | PParam (Some _) _ _ => true
  | _ => false
  end.

(** A member of class [c] that is a function declared in [c.__dict__] as a
    [staticmethod] or a [classmethod]. *)
Definition is_static_or_classmethod (c : cls) (nm : string * member) : bool :=
  match snd nm with
  | MFun _ =>
      match assoc_lookup (cls_dict c) (fst nm) with
      | Some StaticMember | Some ClassMember => true
      | _ => false
      end
  | _ => false
  end.

(** Modelled from the spec: [is_case_function] (case_funcs_new.py, not among
    the sources), "name starts with prefix", the prefix check being skipped
    for case callables passed explicitly. *)
Definition is_case_function_spec (f : func) (prefix : string) (check_prefix : bool) : bool :=
  negb check_prefix || String.prefix prefix (fn_name f).

(** Modelled from the spec: [is_case_class] (case_funcs_new.py), every class
    provider is a candidate case container. *)
Definition is_case_class_spec (c : cls) (check_name : bool) : bool := true.

(** Modelled from the spec: [matches_tag_query] without tag query nor
    filter selects every case. *)
Definition matches_tag_query_spec (c : case_item) : bool := true.

(** ** Further code of common_pytest.py *)

(** [remove_duplicates(lst)]: [dset] is the set of the items already kept
    ([dset.add(item)] returns [None], so the test keeps [item] and records it). *)
Fixpoint remove_duplicates_loop {A} (eq_dec : forall x y : A, {x = y} + {x <> y})
    (dset : list A) (lst : list A) : list A :=
  match lst with
  | [] => []
  | item :: rest =>
      if in_dec eq_dec item dset then remove_duplicates_loop eq_dec dset rest
      else item :: remove_duplicates_loop eq_dec (item :: dset) rest
  end.

Definition remove_duplicates {A} (eq_dec : forall x y : A, {x = y} + {x <> y})
    (lst : list A) : list A :=
  remove_duplicates_loop eq_dec [] lst.

(** A [pytest.mark.parametrize] mark as read by [get_pytest_parametrize_marks]
    (common_pytest_marks.py): [param_names], [param_values], [param_ids]. *)
Record parametrize_mark : Type := mkPMark {
  param_names : list string;
  param_values : list pyval;
  param_ids : option global_ids_t
}.

(** [analyze_parameter_set(pmark, argnames, argvalues, ids, check_nb)] *)
Definition analyze_parameter_set (mini_idvalset : list string -> pyval -> nat -> string)
    (pmark : option parametrize_mark) (argnames : option (list string))
    (argvalues : option (list pyval)) (ids : option global_ids_t) (check_nb : bool)
  : res (list string * list (option (list mark)) * list pyval) :=
  let* (argnames, argvalues, ids) :=
    (match pmark with
     | Some pm =>
         match argnames, argvalues, ids with
         | None, None, None => Ok (Some (param_names pm), Some (param_values pm), param_ids pm)
         | _, _, _ => Raise (ValueError "Either provide a pmark OR the details")
         end
     | None => Ok (argnames, argvalues, ids)
     end) in
  match argnames, argvalues with
  | None, _ => Raise (TypeError "object of type 'NoneType' has no len()")
  | Some _, None => Raise (TypeError "'NoneType' object is not iterable")
  | Some names, Some vals =>
      let* (custom_pids, p_marks, p_values) := extract_parameterset_info names vals check_nb in
      let* p_ids := make_test_ids mini_idvalset ids custom_pids (Some names) (Some p_values) None in
      Ok (p_ids, p_marks, p_values)
  end.

(** [itertools.product] applied to the lists, the product [_cart_product_pytest] stands in
    for. *)
Fixpoint itertools_product {A} (ls : list (list A)) : list (list A) :=
  match ls with
  | [] => [[]]
  | xs :: r => flat_map (fun x => map (cons x) (itertools_product r)) xs
  end.

(** The marks and the value of an entry bound to one name. *)
Definition entry_marks_value (x : pyval) : list mark * pyval :=
  match x with
  | PParam _ ms (v :: _) => (ms, v)
  | _ => ([], x)
  end.

(** Entries [_cart_product_pytest] accepts for one name: a bare value, or a
    [pytest.param] with no id and at least one value. *)
Definition single_entry_ok (x : pyval) : bool :=
  match x with
  | PParam None _ (_ :: _) => true
  | PParam _ _ _ => false
  | _ => true
  end.

(** ** Further code of case_parametrizer_new.py *)

(** The cases for which [case_to_argvalues] creates a fixture. *)
Definition needs_fixture (c : case_fun) : bool :=
  match requires_fixtures c with Ok true => true | _ => false end.

Section Parametrize.

Variable class_bases : class_id -> list class_id.
Variable type_attr : host -> string -> option host_attr.

(** Items of the list built by [get_parametrize_args]: an argvalue of a
    tuple, or an item of a marked parameter value (common_pytest_marks.py,
    not among the sources), whose iteration is left abstract. *)
Variable elem : Type.
Variable of_argvalue : argvalue_out -> elem.
Variable iter_marked : list argvalue_out -> list mark -> list elem.

Definition iter_c2a (r : c2a_result) : list elem :=
  match r with
  | ArgTuple l => map of_argvalue l
  | ArgMarked vals marks => iter_marked vals marks
  end.

(** [get_parametrize_args(cases_funs)]:
    [[c for _f in cases_funs for c in case_to_argvalues(_f)]], threading the
    fixtures placed on the hosts. *)
Fixpoint get_parametrize_args (cases_funs : list case_fun) (st : store)
  : res (list elem) * store :=
  match cases_funs with
  | [] => (Ok [], st)
  | _f :: rest =>
      match case_to_argvalues class_bases type_attr _f st with
      | (Raise e, st') => (Raise e, st')
      | (Ok r, st') =>
          match get_parametrize_args rest st' with
          | (Ok l, st'') => (Ok (iter_c2a r ++ l), st'')
          | (Raise e, st'') => (Raise e, st'')
          end
      end
  end.

End Parametrize.

(** A string with no ['.'] in it. *)
Fixpoint no_dot (s : string) : bool :=
  match s with
  | EmptyString => true
  | String c r => negb (Ascii.eqb c ".") && no_dot r
  end.

Definition case_with_fixture : case_fun :=
  mkCaseFun (mkFunc "case_with_fixture" "pkg.test_foo_cases" 3 None [])
            None "with_fixture" [] ["request"] false [].

Definition test_foo : test_fun := mkTestFun "pkg.test_foo" "<function test_foo>".

Definition CaseWithInit : cls := Cls "CaseWithInit" "pkg.test_foo_cases" 5 true false [] [].

Definition case_meth (n : string) (line : Z) : func := mkFunc n "pkg.test_foo_cases" line None [].

Definition CaseHolder : cls :=
  Cls "CaseHolder" "pkg.test_foo_cases" 10 false false
      [("case_a", MFun (case_meth "case_a" 11)); ("case_s", MFun (case_meth "case_s" 13))]
      [("case_a", PlainMember); ("case_s", StaticMember)].

Definition case_a : func := mkFunc "case_a" "pkg.test_foo_cases" 10 None [].
Definition case_b : func := mkFunc "case_b" "pkg.test_foo_cases" 20 None [].

Definition CaseNested : cls :=
  Cls "CaseNested" "pkg.test_foo_cases" 30 false false
      [("case_x", MFun (case_meth "case_x" 31)); ("case_y", MFun (case_meth "case_y" 33))]
      [("case_x", PlainMember); ("case_y", PlainMember)].

Definition cases_module : pymodule :=
  mkModule "pkg.test_foo_cases"
    [("CaseNested", MClass CaseNested); ("case_a", MFun case_a); ("case_b", MFun case_b)].

(** * Properties *)

(** ** Cartesian product *)

Lemma cart_loop_length : forall names sp xs acc r,
  cart_loop names sp xs acc = Ok r ->
  List.length r = List.length acc + List.length xs *
                  (match sp with Some l => List.length l | None => 1 end).
Proof.
  intros names sp xs; induction xs as [|x xs IH]; intros acc r H; simpl in H.
  - injection H as <-; simpl; lia.
  - destruct (cart_entry names x) as [[xm xv]|e] eqn:Ex; simpl in H; [|discriminate].
    apply IH in H; rewrite H; destruct sp as [l|];
      rewrite length_app; [rewrite length_map|]; simpl; nia.
Qed.

(** C1: every list of combinations returned by [_cart_product_pytest] has
    the product of the dimensions' lengths as its length. *)
Theorem cart_product_size : forall argnames_lists argvalues r,
  _cart_product_pytest argnames_lists argvalues = Ok r ->
  List.length r = fold_right Nat.mul 1 (map (@List.length pyval) argvalues).
Proof.
  intros names dims; revert names; induction dims as [|xs0 rest IH]; intros names r H.
  - discriminate.
  - simpl in H. destruct rest as [|d ds].
    + simpl in H. apply cart_loop_length in H. simpl in H. simpl. lia.
    + destruct (_cart_product_pytest (tl names) (d :: ds)) as [sp|e] eqn:Es;
        simpl in H; [|discriminate].
      apply cart_loop_length in H. apply IH in Es.
      simpl in H. rewrite H, Es. simpl. lia.
Qed.

Lemma cart_product_size_witness :
  _cart_product_pytest [["a"]; ["b"; "c"]]
      [[PInt 1; PParam None ["skip"] [PInt 2]; PInt 3];
       [PTuple [PInt 4; PInt 5]; PLazy 0]]
    = Ok [([], [PInt 1; PInt 4; PInt 5]); ([], [PInt 1; PLazyItem 0 0; PLazyItem 0 1]);
          (["skip"], [PInt 2; PInt 4; PInt 5]); (["skip"], [PInt 2; PLazyItem 0 0; PLazyItem 0 1]);
          ([], [PInt 3; PInt 4; PInt 5]); ([], [PInt 3; PLazyItem 0 0; PLazyItem 0 1])] /\
  List.length [([] : list mark, [PInt 1; PInt 4; PInt 5]); ([], [PInt 1; PLazyItem 0 0; PLazyItem 0 1]);
          (["skip"], [PInt 2; PInt 4; PInt 5]); (["skip"], [PInt 2; PLazyItem 0 0; PLazyItem 0 1]);
          ([], [PInt 3; PInt 4; PInt 5]); ([], [PInt 3; PLazyItem 0 0; PLazyItem 0 1])] = 3 * 2.
Proof.
  split; [reflexivity|].
  apply (cart_product_size [["a"]; ["b"; "c"]]
      [[PInt 1; PParam None ["skip"] [PInt 2]; PInt 3];
       [PTuple [PInt 4; PInt 5]; PLazy 0]]).
  reflexivity.
Defined.

Lemma cart_entry_explicit_id_raises : forall names x,
  has_explicit_id x = true -> exists e, cart_entry names x = Raise e.
Proof.
  intros names x Hx.
  destruct x as [| | | | | |[id|] ms vs]; try discriminate.
  destruct names as [|names0 rest]; [eexists; reflexivity|].
  simpl. destruct (Nat.eqb (List.length names0) 1).
  - destruct vs; eexists; reflexivity.
  - eexists; reflexivity.
Qed.

Lemma cart_loop_raises : forall names sp xs acc x,
  In x xs -> (exists e, cart_entry names x = Raise e) ->
  exists e, cart_loop names sp xs acc = Raise e.
Proof.
  intros names sp xs; induction xs as [|y xs IH]; intros acc x Hin [e He].
  - destruct Hin.
  - simpl. destruct Hin as [<-|Hin].
    + rewrite He. simpl. eauto.
    + destruct (cart_entry names y) as [[ym yv]|e'] eqn:Ey; simpl; eauto.
Qed.

(** C3: an entry carrying an explicit id is refused by the product builder:
    the loop body raises the [ValueError] "It is not possible to specify a
    sub-param id ..." as soon as such an entry decomposes, and the product
    never returns combinations when any dimension holds such an entry. *)
Theorem cart_product_explicit_id_forbidden :
  (forall names0 other_names x id ms v,
     extract_pset_info_single (List.length names0) x = Ok (Some id, ms, v) ->
     cart_entry (names0 :: other_names) x = Raise (ValueError forbidden_id_msg)) /\
  (forall argnames_lists argvalues k dim x,
     nth_error argvalues k = Some dim -> In x dim -> has_explicit_id x = true ->
     exists e, _cart_product_pytest argnames_lists argvalues = Raise e).
Proof.
  split.
  - intros names0 other x id ms v H. simpl. rewrite H. reflexivity.
  - intros names dims; revert names; induction dims as [|xs0 rest IH];
      intros names k dim x Hk Hin Hx.
    + destruct k; discriminate.
    + simpl. destruct k as [|k]; simpl in Hk.
      * injection Hk as <-.
        destruct rest as [|d ds].
        -- simpl. eapply cart_loop_raises; eauto using cart_entry_explicit_id_raises.
        -- destruct (_cart_product_pytest (tl names) (d :: ds)) as [sp|e] eqn:Es;
             simpl; [|eauto].
           eapply cart_loop_raises; eauto using cart_entry_explicit_id_raises.
      * destruct rest as [|d ds]; [destruct k; discriminate|].
        destruct (IH (tl names) k dim x Hk Hin Hx) as [e He].
        rewrite He. simpl. eauto.
Qed.

Lemma cart_product_explicit_id_forbidden_witness :
  cart_entry [["a"]] (PParam (Some "x") [] [PInt 1]) = Raise (ValueError forbidden_id_msg) /\
  exists e, _cart_product_pytest [["a"]; ["b"]]
                                 [[PInt 1]; [PInt 2; PParam (Some "x") [] [PInt 3]]] = Raise e.
Proof.
  split.
  - apply (proj1 cart_product_explicit_id_forbidden ["a"] [] _ "x" (Some []) (PInt 1)).
    reflexivity.
  - apply (proj2 cart_product_explicit_id_forbidden _ _ 1
             [PInt 2; PParam (Some "x") [] [PInt 3]] (PParam (Some "x") [] [PInt 3])).
    + reflexivity.
    + simpl; auto.
    + reflexivity.
Defined.

(** ** Arity checks of [extract_parameterset_info] *)

Lemma extract_loop_lengths : forall n vs ids ms pvs ids' ms' pvs',
  1 < n ->
  extract_parameterset_info_loop n true vs ids ms pvs = Ok (ids', ms', pvs') ->
  Forall (fun v => py_len v = Ok n) pvs ->
  Forall (fun v => py_len v = Ok n) pvs'.
Proof.
  intros n vs; induction vs as [|v vs IH]; intros ids ms pvs ids' ms' pvs' Hn H Hall; simpl in H.
  - injection H as <- <- <-. exact Hall.
  - destruct (extract_pset_info_single n v) as [[[i m] pv]|e] eqn:Ev; simpl in H; [|discriminate].
    assert (Hlt : Nat.ltb 1 n = true) by (apply Nat.ltb_lt; exact Hn).
    rewrite Hlt in H; simpl in H.
    destruct (py_len pv) as [k|e] eqn:Ek; simpl in H; [|discriminate].
    destruct (Nat.eqb k n) eqn:Ekn; simpl in H; [|discriminate].
    apply Nat.eqb_eq in Ekn; subst k.
    apply (IH _ _ _ _ _ _ Hn H).
    apply Forall_app; split; [exact Hall|constructor; [exact Ek|constructor]].
Qed.

Lemma extract_loop_app : forall n pre post ids ms pvs ids' ms' pvs',
  extract_parameterset_info_loop n true pre ids ms pvs = Ok (ids', ms', pvs') ->
  extract_parameterset_info_loop n true (pre ++ post) ids ms pvs =
  extract_parameterset_info_loop n true post ids' ms' pvs'.
Proof.
  intros n pre; induction pre as [|v pre IH]; intros post ids ms pvs ids' ms' pvs' H; simpl in H.
  - injection H as <- <- <-. reflexivity.
  - simpl. destruct (extract_pset_info_single n v) as [[[i m] pv]|e]; simpl in H |- *;
      [|discriminate].
    destruct (Nat.ltb 1 n); simpl in H |- *.
    + destruct (py_len pv) as [k|e]; simpl in H |- *; [|discriminate].
      destruct (negb (Nat.eqb k n)); [discriminate|]. eauto.
    + eauto.
Qed.

(** C4 (as the code does it): with [check_nb=True] (the default),
    [extract_parameterset_info] for [n > 1] names only succeeds when every
    decomposed value has length [n], and raises the [ValueError]
    "Inconsistent number of values in pytest parametrize" at the first entry
    whose decomposed value has another length. *)
Theorem extract_parameterset_info_arity :
  (forall argnames argvalues ids ms vals,
     1 < List.length argnames ->
     extract_parameterset_info argnames argvalues true = Ok (ids, ms, vals) ->
     Forall (fun v => py_len v = Ok (List.length argnames)) vals) /\
  (forall argnames pre v post ids ms vals id mk pv k,
     1 < List.length argnames ->
     extract_parameterset_info argnames pre true = Ok (ids, ms, vals) ->
     extract_pset_info_single (List.length argnames) v = Ok (id, mk, pv) ->
     py_len pv = Ok k -> k <> List.length argnames ->
     extract_parameterset_info argnames (pre ++ v :: post) true
       = Raise (ValueError inconsistent_nb_msg)).
Proof.
  split.
  - intros argnames argvalues ids ms vals Hn H.
    eapply extract_loop_lengths; eauto.
  - intros argnames pre v post ids ms vals id mk pv k Hn Hpre Hv Hk Hne.
    unfold extract_parameterset_info in *.
    rewrite (extract_loop_app _ _ _ _ _ _ _ _ _ Hpre). simpl.
    rewrite Hv. simpl.
    assert (Hlt : Nat.ltb 1 (List.length argnames) = true) by (apply Nat.ltb_lt; exact Hn).
    rewrite Hlt. simpl. rewrite Hk. simpl.
    destruct (Nat.eqb k (List.length argnames)) eqn:E.
    + apply Nat.eqb_eq in E. contradiction.
    + reflexivity.
Qed.

Lemma extract_parameterset_info_arity_witness :
  Forall (fun v => py_len v = Ok 2) [PTuple [PInt 1; PInt 2]; PTuple [PStr "x"; PStr "y"]] /\
  extract_parameterset_info ["a"; "b"] [PTuple [PInt 1; PInt 2]; PTuple [PInt 1; PInt 2; PInt 3]] true
    = Raise (ValueError inconsistent_nb_msg).
Proof.
  split.
  - apply (proj1 extract_parameterset_info_arity ["a"; "b"]
             [PTuple [PInt 1; PInt 2]; PParam None ["m"] [PStr "x"; PStr "y"]]
             [None; None] [None; Some ["m"]]).
    + simpl; lia.
    + reflexivity.
  - exact (proj2 extract_parameterset_info_arity ["a"; "b"] [PTuple [PInt 1; PInt 2]]
             (PTuple [PInt 1; PInt 2; PInt 3]) [] [None] [None] [PTuple [PInt 1; PInt 2]]
             None None (PTuple [PInt 1; PInt 2; PInt 3]) 3
             ltac:(simpl; lia) eq_refl eq_refl eq_refl ltac:(simpl; lia)).
Defined.

(** Counterexample to C4: without [check_nb] a 3-tuple for the two names
    ["a"; "b"] is decomposed without any error. *)
Lemma extract_parameterset_info_no_check_nb :
  extract_parameterset_info ["a"; "b"] [PTuple [PInt 1; PInt 2; PInt 3]] false
    = Ok ([None], [None], [PTuple [PInt 1; PInt 2; PInt 3]]).
Proof. reflexivity. Qed.

(** ** Decomposition of one raw entry *)

(** Counterexample to C7: a bare value is decomposed with [None] marks, not
    an empty list of marks. *)
Lemma extract_pset_info_single_bare_marks_none :
  extract_pset_info_single 1 (PInt 5) = Ok (None, None, PInt 5) /\
  extract_pset_info_single 1 (PInt 5) <> Ok (None, Some [], PInt 5).
Proof. split; [reflexivity|simpl; congruence]. Qed.

(** C7 (as the code does it): a bare value gives [(None, None, value)]; a
    [pytest.param] gives its id and marks, with its first value when bound to
    one name (an [IndexError] if it has none) and its whole values tuple
    otherwise. *)
Theorem extract_pset_info_single_cases :
  (forall n v, is_marked_parameter_value v = false ->
     extract_pset_info_single n v = Ok (None, None, v)) /\
  (forall id ms v0 vs,
     extract_pset_info_single 1 (PParam id ms (v0 :: vs)) = Ok (id, Some ms, v0)) /\
  (forall id ms, extract_pset_info_single 1 (PParam id ms []) = Raise IndexError) /\
  (forall n id ms vs, n <> 1 ->
     extract_pset_info_single n (PParam id ms vs) = Ok (id, Some ms, PTuple vs)).
Proof.
  split; [|split; [|split]].
  - intros n v Hv. destruct v; try reflexivity. discriminate.
  - reflexivity.
  - reflexivity.
  - intros n id ms vs Hn. simpl.
    destruct (Nat.eqb n 1) eqn:E; [apply Nat.eqb_eq in E; contradiction|reflexivity].
Qed.

Lemma extract_pset_info_single_cases_witness :
  extract_pset_info_single 2 (PTuple [PInt 1; PInt 2]) = Ok (None, None, PTuple [PInt 1; PInt 2]) /\
  extract_pset_info_single 2 (PParam (Some "i") ["m"] [PInt 1; PInt 2])
    = Ok (Some "i", Some ["m"], PTuple [PInt 1; PInt 2]).
Proof.
  split.
  - apply (proj1 extract_pset_info_single_cases 2 (PTuple [PInt 1; PInt 2])). reflexivity.
  - apply (proj2 (proj2 (proj2 extract_pset_info_single_cases)) 2 (Some "i") ["m"]
             [PInt 1; PInt 2]). lia.
Defined.

(** ** Id precedence *)

Lemma list_setitem_nth : forall {A} (l l' : list A) i x,
  list_setitem l i x = Ok l' ->
  forall j, nth_error l' j = if Nat.eqb i j then Some x else nth_error l j.
Proof.
  intros A l; induction l as [|h t IH]; intros l' i x H j; simpl in H.
  - discriminate.
  - destruct i as [|i'].
    + injection H as <-. destruct j; reflexivity.
    + destruct (list_setitem t i' x) as [t'|e] eqn:Et; simpl in H; [|discriminate].
      injection H as <-. destruct j as [|j]; [reflexivity|].
      simpl. rewrite (IH _ _ _ Et j). reflexivity.
Qed.

Lemma override_ids_nth : forall idm p k r,
  override_ids p idm k = Ok r ->
  forall j, nth_error r j =
    if Nat.ltb j k then nth_error p j
    else match nth_error idm (j - k) with
         | Some (Some id) => Some id
         | _ => nth_error p j
         end.
Proof.
  intros idm; induction idm as [|m rest IH]; intros p k r H j; simpl in H.
  - injection H as <-. destruct (Nat.ltb j k); [reflexivity|].
    destruct (j - k); reflexivity.
  - destruct m as [id|].
    + destruct (list_setitem p k id) as [p'|e] eqn:Ep; simpl in H; [|discriminate].
      rewrite (IH _ _ _ H j). rewrite (list_setitem_nth _ _ _ _ Ep).
      destruct (Nat.ltb j (S k)) eqn:E1; destruct (Nat.ltb j k) eqn:E2;
        destruct (Nat.eqb k j) eqn:E3;
        rewrite ?Nat.ltb_lt, ?Nat.ltb_ge, ?Nat.eqb_eq, ?Nat.eqb_neq in *; try lia.
      * reflexivity.
      * subst j. rewrite Nat.sub_diag. reflexivity.
      * replace (j - k) with (S (j - S k)) by lia. reflexivity.
    + simpl in H. rewrite (IH _ _ _ H j).
      destruct (Nat.ltb j (S k)) eqn:E1; destruct (Nat.ltb j k) eqn:E2;
        rewrite ?Nat.ltb_lt, ?Nat.ltb_ge in *; try lia.
      * reflexivity.
      * replace j with k by lia. rewrite Nat.sub_diag. reflexivity.
      * replace (j - k) with (S (j - S k)) by lia. reflexivity.
Qed.

(** C8: in [make_test_ids], a non-None per-value id mark wins over the
    global [ids] (a list, or a callable applied on each value), which wins
    over the value-derived ids. *)
Theorem make_test_ids_precedence :
  forall mini_idvalset global_ids id_marks argnames argvalues ids,
  make_test_ids mini_idvalset global_ids id_marks argnames argvalues None = Ok ids ->
  forall i,
  (forall id, nth_error id_marks i = Some (Some id) -> nth_error ids i = Some id) /\
  ((nth_error id_marks i = Some None \/ nth_error id_marks i = None) ->
     (forall l, global_ids = Some (GIdList l) -> nth_error ids i = nth_error l i) /\
     (forall f vs, global_ids = Some (GIdCallable f) -> argvalues = Some vs ->
        nth_error ids i = option_map f (nth_error vs i)) /\
     (global_ids = None ->
        forall d, make_test_ids_from_param_values mini_idvalset argnames argvalues = Ok d ->
        nth_error ids i = nth_error d i)).
Proof.
  intros mini g idm names vals ids H i.
  unfold make_test_ids in H.
  destruct (match g with
            | Some (GIdList l) => Ok l
            | Some (GIdCallable f) =>
                match vals with
                | Some vs => Ok (map f vs)
                | None => Raise (TypeError "'NoneType' object is not iterable")
                end
            | None =>
                match (None : option (list string)) with
                | Some pre =>
                    match names, vals with
                    | None, None => Ok pre
                    | _, _ => Raise (ValueError "Only one of `precomputed_ids` or argnames/argvalues should be provided.")
                    end
                | None => make_test_ids_from_param_values mini names vals
                end
            end) as [p_ids|e] eqn:Ep; simpl in H; [|discriminate].
  pose proof (override_ids_nth _ _ _ _ H i) as Hi.
  simpl in Hi. rewrite Nat.sub_0_r in Hi.
  split.
  - intros id Hid. rewrite Hid in Hi. exact Hi.
  - intros Hnone.
    assert (Hp : nth_error ids i = nth_error p_ids i)
      by (destruct Hnone as [Hn|Hn]; rewrite Hn in Hi; exact Hi).
    rewrite Hp. split; [|split].
    + intros l ->. injection Ep as <-. reflexivity.
    + intros f vs -> ->. injection Ep as <-. apply nth_error_map.
    + intros -> d Hd. rewrite Hd in Ep. injection Ep as <-. reflexivity.
Qed.

Lemma make_test_ids_precedence_witness :
  make_test_ids (fun _ _ _ => "derived") (Some (GIdList ["g0"; "g1"])) [Some "x"; None]
                (Some ["a"]) (Some [PInt 1; PInt 2]) None = Ok ["x"; "g1"] /\
  nth_error ["x"; "g1"] 0 = Some "x" /\
  nth_error ["x"; "g1"] 1 = nth_error ["g0"; "g1"] 1.
Proof.
  split; [reflexivity|split].
  - apply (proj1 (make_test_ids_precedence (fun _ _ _ => "derived") (Some (GIdList ["g0"; "g1"]))
             [Some "x"; None] (Some ["a"]) (Some [PInt 1; PInt 2]) ["x"; "g1"] eq_refl 0)).
    reflexivity.
  - apply (proj1 (proj2 (make_test_ids_precedence (fun _ _ _ => "derived")
             (Some (GIdList ["g0"; "g1"])) [Some "x"; None] (Some ["a"])
             (Some [PInt 1; PInt 2]) ["x"; "g1"] eq_refl 1) (or_introl eq_refl))).
    reflexivity.
Defined.

(** ** Fixtures created for cases that require fixtures *)

Lemma host_eqb_eq : forall h1 h2, host_eqb h1 h2 = true <-> h1 = h2.
Proof.
  intros [a|a] [b|b]; simpl; rewrite ?String.eqb_eq, ?Nat.eqb_eq; split; intros H;
    try discriminate; congruence.
Qed.

Lemma store_set_get : forall s h k v h' k',
  store_set s h k v h' k' = if host_eqb h h' && String.eqb k k' then Some v else s h' k'.
Proof. reflexivity. Qed.

Lemma store_set_other : forall s h k v h' k',
  (h, k) <> (h', k') -> store_set s h k v h' k' = s h' k'.
Proof.
  intros s h k v h' k' Hne. rewrite store_set_get.
  destruct (host_eqb h h') eqn:E1, (String.eqb k k') eqn:E2; try reflexivity.
  apply host_eqb_eq in E1; apply String.eqb_eq in E2; subst. contradiction.
Qed.

Lemma store_set_same : forall s h k v, store_set s h k v h k = Some v.
Proof.
  intros s h k v. rewrite store_set_get.
  rewrite (proj2 (host_eqb_eq h h) eq_refl), String.eqb_refl. reflexivity.
Qed.

(** The host's own [__dict__] comes first in its lookup chain. *)
Lemma getattr_own : forall class_bases type_attr st h k a,
  st h k = Some a -> getattr class_bases type_attr st h k = Some a.
Proof.
  intros cb ta st h k a H. unfold getattr. destruct h; simpl; rewrite H; reflexivity.
Qed.

Lemma getattr_none_own : forall class_bases type_attr st h k,
  is_none_attr (getattr class_bases type_attr st h k) = true ->
  st h k = None \/ st h k = Some ANone.
Proof.
  intros cb ta st h k H. destruct (st h k) as [[| |]|] eqn:E; auto;
    rewrite (getattr_own cb ta st h k _ E) in H; discriminate.
Qed.

(** Binding a name to a value that is not [None] does not change a lookup
    that still gives [None] afterwards. *)
Lemma first_attr_store_set : forall st h k v hs k',
  is_none_attr (Some v) = false ->
  first_attr (store_set st h k v) hs k' = None \/
  first_attr (store_set st h k v) hs k' = Some ANone ->
  first_attr st hs k' = first_attr (store_set st h k v) hs k'.
Proof.
  intros st h k v hs k' Hv. induction hs as [|x r IH]; intros Hn; [reflexivity|].
  simpl in Hn |- *. rewrite store_set_get in Hn |- *.
  destruct (host_eqb h x && String.eqb k k') eqn:E.
  - destruct Hn as [Hn|Hn]; [discriminate|injection Hn as ->; discriminate].
  - destruct (st x k') as [a|]; [reflexivity|]. exact (IH Hn).
Qed.

Lemma getattr_store_set : forall class_bases type_attr st h k v h' k',
  is_none_attr (Some v) = false ->
  is_none_attr (getattr class_bases type_attr (store_set st h k v) h' k') = true ->
  getattr class_bases type_attr st h' k' = getattr class_bases type_attr (store_set st h k v) h' k'.
Proof.
  intros cb ta st h k v h' k' Hv Hn. unfold getattr in Hn |- *.
  destruct (first_attr (store_set st h k v) (attr_chain cb h') k') as [a|] eqn:E.
  - assert (Ha : a = ANone) by (destruct a; try discriminate; reflexivity). subst a.
    rewrite (first_attr_store_set _ _ _ _ _ _ Hv (or_intror E)), E. reflexivity.
  - rewrite (first_attr_store_set _ _ _ _ _ _ Hv (or_introl E)), E. reflexivity.
Qed.

(** C2 (a defect of the code): the docstring of [case_to_argvalues] says a
    fixture "will be created if not yet present" and its comments say "if
    already done, no need to recreate it" and "reference the new or existing
    fixture"; but binding the same case a second time does not reuse the
    fixture created by the first call, it raises [NotImplementedError]. The
    failing input: a case of module [pkg.test_foo_cases] with id
    [with_fixture] requiring the fixture [request], whose module type gives
    no attribute [with_fixture], bound twice. *)
Theorem case_to_argvalues_second_call_raises : forall class_bases type_attr,
  is_none_attr (type_attr (HModule "pkg.test_foo_cases") "with_fixture") = true ->
  fst (case_to_argvalues class_bases type_attr case_with_fixture empty_store)
    = Ok (ArgTuple [FixtureRef "with_fixture"]) /\
  fst (case_to_argvalues class_bases type_attr case_with_fixture
         (snd (case_to_argvalues class_bases type_attr case_with_fixture empty_store)))
    = Raise (NotImplementedError not_implemented_msg).
Proof.
  intros cb ta H.
  assert (Hr : requires_fixtures case_with_fixture = Ok true) by reflexivity.
  assert (Hg : is_none_attr (getattr cb ta empty_store (fixture_host case_with_fixture)
                                     (cf_id case_with_fixture)) = true) by exact H.
  unfold case_to_argvalues. rewrite Hr, Hg. cbv zeta. cbn [fst snd]. split; [reflexivity|].
  erewrite getattr_own by apply store_set_same. reflexivity.
Qed.

Lemma case_to_argvalues_second_call_raises_witness :
  fst (case_to_argvalues (fun _ => []) (fun _ _ => None) case_with_fixture
         (snd (case_to_argvalues (fun _ => []) (fun _ _ => None) case_with_fixture empty_store)))
    = Raise (NotImplementedError not_implemented_msg).
Proof.
  exact (proj2 (case_to_argvalues_second_call_raises (fun _ => []) (fun _ _ => None) eq_refl)).
Defined.

(** X15: for a case that requires fixtures, [case_to_argvalues] binds a
    fixture named by the case id in the [__dict__] of the host when
    [getattr(host, case_id, None)] is [None] (then [getattr] finds it
    there, no other binding changes, and a [fixture_ref] to it is returned);
    when [getattr] finds anything else, on the host, its bases or its type,
    [NotImplementedError] is raised and nothing changes. *)
Theorem case_to_argvalues_fixture_once :
  forall class_bases type_attr case st,
  requires_fixtures case = Ok true ->
  (is_none_attr (getattr class_bases type_attr st (fixture_host case) (cf_id case)) = true ->
     let st' := snd (case_to_argvalues class_bases type_attr case st) in
     st' (fixture_host case) (cf_id case) = Some (AFixture (cf_id case) (cf_func case)) /\
  getattr class_bases type_attr st' (fixture_host case) (cf_id case)
       = Some (AFixture (cf_id case) (cf_func case)) /\
  (forall h k, (fixture_host case, cf_id case) <> (h, k) -> st' h k = st h k) /\
  fst (case_to_argvalues class_bases type_attr case st)
       = Ok (match cf_marks case with
             | [] => ArgTuple [FixtureRef (cf_id case)]
             | ms => ArgMarked [FixtureRef (cf_id case)] ms
             end)) /\
  (is_none_attr (getattr class_bases type_attr st (fixture_host case) (cf_id case)) = false ->
     case_to_argvalues class_bases type_attr case st
       = (Raise (NotImplementedError not_implemented_msg), st)).
Proof.
  intros cb ta case st Hreq. unfold case_to_argvalues. rewrite Hreq. split.
  - intros Hnone. rewrite Hnone. cbv zeta. cbn [snd fst]. split; [|split; [|split]].
    + apply store_set_same.
    + apply getattr_own, store_set_same.
    + intros h k Hne. apply store_set_other, Hne.
    + destruct (cf_marks case); reflexivity.
  - intros Hsome. rewrite Hsome. reflexivity.
Qed.

(** A case of class 1, whose base class 0 already has a fixture of that id. *)
Lemma case_to_argvalues_fixture_once_witness :
  case_to_argvalues (fun c => if Nat.eqb c 1 then [0] else []) (fun _ _ => None)
      (mkCaseFun (case_meth "case_with_fixture" 3) (Some 1) "with_fixture" [] ["request"] false [])
      (store_set empty_store (HClass 0) "with_fixture" (AFixture "with_fixture" case_a))
    = (Raise (NotImplementedError not_implemented_msg),
       store_set empty_store (HClass 0) "with_fixture" (AFixture "with_fixture" case_a)) /\
  snd (case_to_argvalues (fun c => if Nat.eqb c 1 then [0] else []) (fun _ _ => None)
         (mkCaseFun (case_meth "case_with_fixture" 3) (Some 1) "with_fixture" [] ["request"] false [])
         empty_store) (HClass 1) "with_fixture"
    = Some (AFixture "with_fixture" (case_meth "case_with_fixture" 3)).
Proof.
  split.
  - apply (proj2 (case_to_argvalues_fixture_once (fun c => if Nat.eqb c 1 then [0] else [])
             (fun _ _ => None)
             (mkCaseFun (case_meth "case_with_fixture" 3) (Some 1) "with_fixture" [] ["request"] false [])
             (store_set empty_store (HClass 0) "with_fixture" (AFixture "with_fixture" case_a))
             eq_refl)).
    reflexivity.
  - apply (proj1 (case_to_argvalues_fixture_once (fun c => if Nat.eqb c 1 then [0] else [])
             (fun _ _ => None)
             (mkCaseFun (case_meth "case_with_fixture" 3) (Some 1) "with_fixture" [] ["request"] false [])
             empty_store eq_refl) eq_refl).
Defined.

(** ** Automatic cases module *)









(** ** Case classes with their own constructor *)

(** C9: a case class declaring its own [__init__] or [__new__] is not
    collected: [extract_cases_from_class] emits one warning and returns no
    case without raising, and [get_all_cases] goes on with the next
    providers. *)
Theorem extract_cases_from_class_own_constructor :
  forall is_case_class is_case_function c check_name prefix w,
  is_case_class c check_name = true ->
  hasinit c = true \/ hasnew c = true ->
  extract_cases_from_class is_case_class is_case_function c check_name prefix w
    = (Ok [], w ++ [if hasinit c then init_warning c else new_warning c]) /\
  (check_name = false ->
   forall sys_modules CASE_PREFIX_FUN target rest acc,
   collect_all is_case_class is_case_function sys_modules CASE_PREFIX_FUN target prefix
               (PvClass c :: rest) acc w
   = collect_all is_case_class is_case_function sys_modules CASE_PREFIX_FUN target prefix
                 rest acc (w ++ [if hasinit c then init_warning c else new_warning c])).
Proof.
  intros icc icf c cn prefix w Hcc Hctor.
  assert (Hext : extract_cases_from_class icc icf c cn prefix w
                 = (Ok [], w ++ [if hasinit c then init_warning c else new_warning c])).
  { destruct c as [n md l i nw ms d]; simpl in Hctor |- *.
    rewrite Hcc. destruct i; [reflexivity|].
    destruct Hctor as [H|H]; [discriminate|]. rewrite H. reflexivity. }
  split; [exact Hext|].
  intros -> sys pfx target rest acc.
  simpl. unfold M_bind. simpl. rewrite Hext. rewrite app_nil_r. reflexivity.
Qed.

Lemma extract_cases_from_class_own_constructor_witness :
  extract_cases_from_class is_case_class_spec is_case_function_spec CaseWithInit false "case_" []
    = (Ok [], [init_warning CaseWithInit]).
Proof.
  exact (proj1 (extract_cases_from_class_own_constructor is_case_class_spec is_case_function_spec
                  CaseWithInit false "case_" [] eq_refl (or_introl eq_refl))).
Defined.

(** ** Methods of case classes *)

(** C10: in a case class, a case method declared as a [staticmethod] or
    [classmethod] is skipped silently, an ordinary method is recorded at its
    first line as [partial(m, cls())] with its name, case info and marks
    copied; the scan of the class members is the scan of its members without
    the static and class methods. *)
Theorem extract_class_methods :
  forall is_case_class is_case_function extract_nested c prefix,
  (forall dct m_name f w,
     is_case_function f prefix true = true ->
     assoc_lookup (cls_dict c) m_name = Some StaticMember \/
     assoc_lookup (cls_dict c) m_name = Some ClassMember ->
     extract_member is_case_class is_case_function extract_nested (Some c) prefix dct
                    (m_name, MFun f) w = (Ok dct, w)) /\
  (forall dct m_name f w,
     is_case_function f prefix true = true ->
     assoc_lookup (cls_dict c) m_name = Some PlainMember ->
     extract_member is_case_class is_case_function extract_nested (Some c) prefix dct
                    (m_name, MFun f) w
     = (Ok (dict_setitem dct (inject_Z (fn_line f))
              (CasePartial f (cls_name c) (cls_name c) (fn_name f) (fn_info f) (fn_marks f))),
        w)) /\
  (forall ms dct w,
     scan_members is_case_class is_case_function extract_nested (Some c) prefix ms dct w
     = scan_members is_case_class is_case_function extract_nested (Some c) prefix
                    (filter (fun nm => negb (is_static_or_classmethod c nm)) ms) dct w).
Proof.
  intros icc icf rec c prefix. split; [|split].
  - intros dct m_name f w Hf Hk. simpl. rewrite Hf.
    destruct Hk as [Hk|Hk]; rewrite Hk; reflexivity.
  - intros dct m_name f w Hf Hk. simpl. rewrite Hf, Hk. reflexivity.
  - intros ms; induction ms as [|[n m] rest IH]; intros dct w; [reflexivity|].
    simpl filter. destruct (is_static_or_classmethod c (n, m)) eqn:Es; simpl negb.
    + unfold is_static_or_classmethod in Es. simpl in Es.
      destruct m as [f| |]; try discriminate.
      cbn [scan_members]. unfold M_bind. simpl.
      destruct (icf f prefix true);
        [destruct (assoc_lookup (cls_dict c) n) as [[| |]|]; try discriminate|];
        apply IH.
    + cbn [scan_members]. unfold M_bind.
      destruct (extract_member icc icf rec (Some c) prefix dct (n, m) w) as [[d|e] w'];
        [apply IH|reflexivity].
Qed.

Lemma extract_class_methods_witness :
  extract_member is_case_class_spec is_case_function_spec (fun _ => M_ret []) (Some CaseHolder)
                 "case_" [] ("case_s", MFun (case_meth "case_s" 13)) [] = (Ok [], []) /\
  extract_cases_from_class is_case_class_spec is_case_function_spec CaseHolder true "case_" []
    = (Ok [CasePartial (case_meth "case_a" 11) "CaseHolder" "CaseHolder" "case_a" None []], []).
Proof.
  split.
  - apply (proj1 (extract_class_methods is_case_class_spec is_case_function_spec
                    (fun _ => M_ret []) CaseHolder "case_")).
    + reflexivity.
    + left; reflexivity.
  - reflexivity.
Defined.

(** ** Order of the collected cases *)

Lemma Qeq_bool_trans_l : forall a b c,
  Qeq_bool a b = true -> Qeq_bool a c = Qeq_bool b c.
Proof.
  intros a b c Hab. apply Qeq_bool_eq in Hab.
  destruct (Qeq_bool a c) eqn:E1; destruct (Qeq_bool b c) eqn:E2; try reflexivity.
  - apply Qeq_bool_eq in E1. apply Qeq_bool_neq in E2.
    exfalso. apply E2. rewrite <- Hab. exact E1.
  - apply Qeq_bool_neq in E1. apply Qeq_bool_eq in E2.
    exfalso. apply E1. rewrite Hab. exact E2.
Qed.

Lemma dict_getitem_setitem : forall d k v k',
  dict_getitem (dict_setitem d k v) k' =
  if Qeq_bool k k' then Ok v else dict_getitem d k'.
Proof.
  induction d as [|[k1 v1] r IH]; intros k v k'; simpl.
  - destruct (Qeq_bool k k'); reflexivity.
  - destruct (Qeq_bool k1 k) eqn:E1; simpl.
    + rewrite (Qeq_bool_trans_l _ _ k' E1).
      destruct (Qeq_bool k k'); reflexivity.
    + rewrite IH. destruct (Qeq_bool k1 k') eqn:E2; [|reflexivity].
      destruct (Qeq_bool k k') eqn:E3; [|reflexivity].
      apply Qeq_bool_eq in E2, E3. apply Qeq_bool_neq in E1.
      exfalso. apply E1. rewrite E2, E3. reflexivity.
Qed.

Lemma gen_line_nb_inj : forall line a b n,
  (0 < n)%nat -> Qeq_bool (gen_line_nb line a n) (gen_line_nb line b n) = true -> a = b.
Proof.
  intros line a b n Hn H. apply Qeq_bool_eq in H. unfold gen_line_nb, Qdiv in H.
  apply Qplus_inj_l in H.
  assert (Hnz : ~ inject_Z (Z.of_nat n) == 0).
  { intro Hz. unfold Qeq in Hz. simpl in Hz. lia. }
  assert (Hinv : ~ / inject_Z (Z.of_nat n) == 0).
  { intro Hz. apply Hnz.
    rewrite <- (Qinv_involutive (inject_Z (Z.of_nat n))), Hz. reflexivity. }
  apply (proj1 (Qmult_inj_r _ _ _ Hinv)) in H.
  apply (proj1 (inject_Z_injective _ _)) in H. lia.
Qed.

Lemma add_nested_cases_other : forall items d line n i0 k,
  (forall j, j < List.length items -> Qeq_bool (gen_line_nb line (i0 + j) n) k = false) ->
  dict_getitem (add_nested_cases d line n items i0) k = dict_getitem d k.
Proof.
  induction items as [|it r IH]; intros d line n i0 k H; simpl; [reflexivity|].
  rewrite IH.
  - rewrite dict_getitem_setitem.
    specialize (H 0 ltac:(simpl; lia)). rewrite Nat.add_0_r in H. rewrite H. reflexivity.
  - intros j Hj. replace (S i0 + j) with (i0 + S j) by lia. apply H. simpl. lia.
Qed.

Lemma add_nested_cases_get : forall items d line n i0 j x,
  (0 < n)%nat -> nth_error items j = Some x ->
  dict_getitem (add_nested_cases d line n items i0) (gen_line_nb line (i0 + j) n) = Ok x.
Proof.
  induction items as [|it r IH]; intros d line n i0 j x Hn Hj; [destruct j; discriminate|].
  simpl. destruct j as [|j]; simpl in Hj.
  - injection Hj as <-. rewrite add_nested_cases_other.
    + rewrite dict_getitem_setitem, Nat.add_0_r.
      rewrite (proj2 (Qeq_bool_iff _ _) (Qeq_refl _)). reflexivity.
    + intros j Hj. destruct (Qeq_bool (gen_line_nb line (S i0 + j) n)
                                       (gen_line_nb line (i0 + 0) n)) eqn:E; [|reflexivity].
      apply gen_line_nb_inj in E; [lia|exact Hn].
  - replace (i0 + S j) with (S i0 + j) by lia. apply IH; assumption.
Qed.

Lemma insert_key_hdrel : forall k h l,
  HdRel Qle h l -> (h <= k)%Q -> HdRel Qle h (insert_key k l).
Proof.
  intros k h [|h' t] Hh Hle; simpl.
  - constructor. exact Hle.
  - destruct (Qle_bool k h'); constructor; [exact Hle|inversion Hh; assumption].
Qed.

Lemma insert_key_sorted : forall k l, Sorted Qle l -> Sorted Qle (insert_key k l).
Proof.
  intros k l; induction l as [|h t IH]; intros Hs; simpl.
  - repeat constructor.
  - destruct (Qle_bool k h) eqn:E.
    + constructor; [exact Hs|constructor; apply Qle_bool_iff; exact E].
    + inversion Hs as [|? ? Ht Hh]; subst. constructor; [apply IH; exact Ht|].
      apply insert_key_hdrel; [exact Hh|].
      apply Qlt_le_weak, Qnot_le_lt. intro Hle. apply Qle_bool_iff in Hle. congruence.
Qed.

Lemma sorted_keys_sorted : forall d, Sorted Qle (sorted_keys d).
Proof.
  intros d. unfold sorted_keys. induction (map fst d) as [|k ks IH]; simpl.
  - constructor.
  - apply insert_key_sorted, IH.
Qed.

Lemma collect_all_concat :
  forall is_case_class is_case_function sys_modules CASE_PREFIX_FUN target prefix cases acc w r w',
  collect_all is_case_class is_case_function sys_modules CASE_PREFIX_FUN target prefix cases acc w
    = (Ok r, w') ->
  exists ls,
    Forall2 (fun c l => exists w1 w2,
               collect_provider is_case_class is_case_function sys_modules CASE_PREFIX_FUN
                                target prefix c w1 = (Ok l, w2)) cases ls /\
    r = acc ++ List.concat ls.
Proof.
  intros icc icf sys pfx target prefix cases; induction cases as [|c rest IH];
    intros acc w r w' H; simpl in H.
  - injection H as <- <-. exists []. split; [constructor|]. simpl. rewrite app_nil_r. reflexivity.
  - unfold M_bind in H.
    destruct (collect_provider icc icf sys pfx target prefix c w) as [[l|e] w1] eqn:Ec;
      [|discriminate].
    destruct (IH _ _ _ _ H) as [ls [Hls ->]].
    exists (l :: ls). split.
    + constructor; [exists w, w1; exact Ec|exact Hls].
    + simpl. rewrite app_assoc. reflexivity.
Qed.

Lemma extract_container_sorted :
  forall is_case_class is_case_function extract_nested module cls_opt prefix ms w r w',
  match module, cls_opt with
  | Some md, None => ms = filter (of_interest_module md) (mod_members md)
  | None, Some c => ms = cls_members c
  | _, _ => False
  end ->
  _extract_cases_from_module_or_class is_case_class is_case_function extract_nested
                                      module cls_opt prefix w = (Ok r, w') ->
  exists d, scan_members is_case_class is_case_function extract_nested cls_opt prefix ms [] w
              = (Ok d, w') /\
            Sorted Qle (sorted_keys d) /\ sorted_cases d = Ok r.
Proof.
  intros icc icf rec module cls_opt prefix ms w r w' Hms H.
  unfold _extract_cases_from_module_or_class in H.
  destruct module as [md|]; destruct cls_opt as [c|]; try contradiction; subst ms;
    unfold M_bind in H;
    match type of H with
    | context [scan_members ?a ?b ?c ?d ?e ?f ?g ?h] =>
        destruct (scan_members a b c d e f g h) as [[d'|e'] w''] eqn:Es; [|discriminate]
    end;
    unfold M_lift in H; injection H as Hr <-;
    exists d'; repeat split; auto using sorted_keys_sorted.
Qed.

(** Counterexample to C5: [get_all_cases] returns the cases of several
    providers in the order of the providers, not by declaration line. *)
Lemma get_all_cases_provider_order :
  fst (get_all_cases is_case_class_spec is_case_function_spec [] "case_" matches_tag_query_spec
                     test_foo [PvFun case_b; PvFun case_a] "case_" [])
    = Ok [CaseFun case_b; CaseFun case_a] /\
  (fn_line case_a < fn_line case_b)%Z.
Proof. split; [vm_compute; reflexivity|reflexivity]. Qed.

(** C5 (as the code does it): [get_all_cases] concatenates the cases of the
    providers in the order the providers are given and filters last, keeping
    that order; inside one module or class provider the cases are the values
    of [cases_dct] taken by ascending key, where the [i]-th of the [t] cases
    of a nested case class is stored at the key [class line + i / t]. *)
Theorem collection_order :
  (forall is_case_class is_case_function sys_modules CASE_PREFIX_FUN matches_tag_query
          target cases prefix w r w',
     get_all_cases is_case_class is_case_function sys_modules CASE_PREFIX_FUN matches_tag_query
                   target cases prefix w = (Ok r, w') ->
     exists ls,
       Forall2 (fun c l => exists w1 w2,
                  collect_provider is_case_class is_case_function sys_modules CASE_PREFIX_FUN
                                   target prefix c w1 = (Ok l, w2)) cases ls /\
       r = filter matches_tag_query (List.concat ls)) /\
  (forall is_case_class is_case_function extract_nested module cls_opt prefix ms w r w',
     match module, cls_opt with
     | Some md, None => ms = filter (of_interest_module md) (mod_members md)
     | None, Some c => ms = cls_members c
     | _, _ => False
     end ->
     _extract_cases_from_module_or_class is_case_class is_case_function extract_nested
                                         module cls_opt prefix w = (Ok r, w') ->
     exists d, scan_members is_case_class is_case_function extract_nested cls_opt prefix ms [] w
                 = (Ok d, w') /\
               Sorted Qle (sorted_keys d) /\ sorted_cases d = Ok r) /\
  (forall is_case_class is_case_function extract_nested cls_opt prefix dct m_name c' w cases w',
     is_case_class c' true = true ->
     extract_nested c' w = (Ok cases, w') ->
     exists d', extract_member is_case_class is_case_function extract_nested cls_opt prefix dct
                               (m_name, MClass c') w = (Ok d', w') /\
       forall i x, nth_error cases i = Some x ->
         dict_getitem d' (gen_line_nb (cls_line c') i (List.length cases)) = Ok x).
Proof.
  split; [|split].
  - intros icc icf sys pfx mtq target cases prefix w r w' H.
    unfold get_all_cases, M_bind in H.
    destruct (collect_all icc icf sys pfx target prefix cases [] w) as [[fs|e] w1] eqn:Ec;
      [|discriminate].
    injection H as <- <-.
    destruct (collect_all_concat _ _ _ _ _ _ _ _ _ _ _ Ec) as [ls [Hls Hfs]].
    exists ls. split; [exact Hls|]. rewrite Hfs. reflexivity.
  - exact extract_container_sorted.
  - intros icc icf rec cls_opt prefix dct m_name c' w cases w' Hcc Hrec.
    simpl. rewrite Hcc. unfold M_bind. rewrite Hrec.
    eexists. split; [reflexivity|].
    intros i x Hi.
    apply (add_nested_cases_get cases dct (cls_line c') (List.length cases) 0 i x).
    + destruct cases; [destruct i; discriminate|simpl; lia].
    + exact Hi.
Qed.

Lemma collection_order_witness :
  fst (get_all_cases is_case_class_spec is_case_function_spec [cases_module] "case_"
                     matches_tag_query_spec test_foo [PvAUTO] "case_" [])
    = Ok [CaseFun case_a; CaseFun case_b;
          CasePartial (case_meth "case_x" 31) "CaseNested" "CaseNested" "case_x" None [];
          CasePartial (case_meth "case_y" 33) "CaseNested" "CaseNested" "case_y" None []] /\
  exists ls,
    Forall2 (fun c l => exists w1 w2,
               collect_provider is_case_class_spec is_case_function_spec [cases_module] "case_"
                                test_foo "case_" c w1 = (Ok l, w2)) [PvAUTO] ls /\
    [CaseFun case_a; CaseFun case_b;
     CasePartial (case_meth "case_x" 31) "CaseNested" "CaseNested" "case_x" None [];
     CasePartial (case_meth "case_y" 33) "CaseNested" "CaseNested" "case_y" None []]
    = filter matches_tag_query_spec (List.concat ls).
Proof.
  split; [vm_compute; reflexivity|].
  apply (proj1 collection_order is_case_class_spec is_case_function_spec [cases_module] "case_"
           matches_tag_query_spec test_foo [PvAUTO] "case_" [] _ []).
  vm_compute. reflexivity.
Defined.

(** * Further properties of the embedded code *)

(** ** [remove_duplicates] *)

Lemma remove_duplicates_loop_spec : forall A eq_dec (dset l : list A),
  NoDup (remove_duplicates_loop eq_dec dset l) /\
  (forall x, In x (remove_duplicates_loop eq_dec dset l) <-> In x l /\ ~ In x dset).
Proof.
  intros A eq_dec dset l; revert dset; induction l as [|a l IH]; intros dset; simpl.
  - split; [constructor|]. intros x; split; [intros []|intros [[] _]].
  - destruct (in_dec eq_dec a dset) as [Hin|Hnin].
    + destruct (IH dset) as [Hnd Hmem]. split; [exact Hnd|].
      intros x; rewrite Hmem; split.
      * intros [Hx Hd]; auto.
      * intros [[<-|Hx] Hd]; [contradiction|auto].
    + destruct (IH (a :: dset)) as [Hnd Hmem]. split.
      * constructor; [|exact Hnd]. rewrite Hmem. intros [_ Hd]. apply Hd; left; reflexivity.
      * intros x; simpl; rewrite Hmem; split.
        -- intros [<-|[Hx Hd]]; [split; [left; reflexivity|exact Hnin]|].
           split; [right; exact Hx|intros Hd'; apply Hd; right; exact Hd'].
        -- intros [[<-|Hx] Hd]; [left; reflexivity|].
           destruct (eq_dec a x) as [->|Hne]; [left; reflexivity|right].
           split; [exact Hx|intros [Heq|Hd']; [exact (Hne Heq)|exact (Hd Hd')]].
Qed.

Lemma in_dec_singleton_ext : forall A eq_dec (x : A) l1 l2,
  (In x l1 <-> In x l2) ->
  (if in_dec eq_dec x l1 then [] else [x]) = (if in_dec eq_dec x l2 then [] else [x]).
Proof.
  intros A eq_dec x l1 l2 H.
  destruct (in_dec eq_dec x l1) as [H1|H1], (in_dec eq_dec x l2) as [H2|H2];
    try reflexivity; exfalso; tauto.
Qed.

Lemma remove_duplicates_loop_snoc : forall A eq_dec (l : list A) dset x,
  remove_duplicates_loop eq_dec dset (l ++ [x]) =
  remove_duplicates_loop eq_dec dset l ++
    (if in_dec eq_dec x (dset ++ l) then [] else [x]).
Proof.
  intros A eq_dec l; induction l as [|a l IH]; intros dset x; simpl.
  - rewrite app_nil_r. destruct (in_dec eq_dec x dset); reflexivity.
  - destruct (in_dec eq_dec a dset) as [Hin|Hnin].
    + rewrite IH. f_equal. apply in_dec_singleton_ext.
      rewrite !in_app_iff. simpl. split; [tauto|intros [H|[<-|H]]; tauto].
    + rewrite IH. cbn [app]. f_equal. f_equal. apply in_dec_singleton_ext.
      cbn [In]. rewrite !in_app_iff. cbn [In]. tauto.
Qed.

Lemma remove_duplicates_loop_id : forall A eq_dec (l dset : list A),
  NoDup l -> (forall x, In x l -> ~ In x dset) ->
  remove_duplicates_loop eq_dec dset l = l.
Proof.
  intros A eq_dec l; induction l as [|a l IH]; intros dset Hnd Hd; simpl; [reflexivity|].
  inversion Hnd as [|? ? Ha Hnd']; subst.
  destruct (in_dec eq_dec a dset) as [Hin|_]; [exfalso; exact (Hd a (or_introl eq_refl) Hin)|].
  f_equal. apply IH; [exact Hnd'|].
  intros x Hx [<-|Hx']; [exact (Ha Hx)|exact (Hd x (or_intror Hx) Hx')].
Qed.

(** X1: [remove_duplicates] keeps each item once, at its first occurrence:
    its result has no duplicate and the same items as [lst], and appending
    [x] to [lst] appends [x] to the result exactly when [x] was not yet in
    [lst]. *)
Theorem remove_duplicates_first_occurrences : forall A eq_dec (lst : list A),
  NoDup (remove_duplicates eq_dec lst) /\
  (forall x, In x (remove_duplicates eq_dec lst) <-> In x lst) /\
  (forall x, remove_duplicates eq_dec (lst ++ [x]) =
             remove_duplicates eq_dec lst ++ (if in_dec eq_dec x lst then [] else [x])).
Proof.
  intros A eq_dec lst. unfold remove_duplicates.
  destruct (remove_duplicates_loop_spec A eq_dec [] lst) as [Hnd Hmem].
  split; [exact Hnd|split].
  - intros x; rewrite Hmem; split; [intros [H _]; exact H|intros H; split; [exact H|intros []]].
  - intros x. rewrite remove_duplicates_loop_snoc. reflexivity.
Qed.

(** X2: [remove_duplicates] returns its input unchanged exactly when the
    input has no duplicate. *)
Theorem remove_duplicates_id_iff_nodup : forall A eq_dec (lst : list A),
  remove_duplicates eq_dec lst = lst <-> NoDup lst.
Proof.
  intros A eq_dec lst; unfold remove_duplicates; split.
  - intros H. rewrite <- H. apply (remove_duplicates_loop_spec A eq_dec [] lst).
  - intros H. apply remove_duplicates_loop_id; [exact H|intros x _ []].
Qed.

(** ** Test ids *)

Lemma ids_single_nth : forall mini names vs k i,
  nth_error (ids_single mini names vs k) i =
  option_map (fun v => mini names (PTuple [v]) (k + i)) (nth_error vs i).
Proof.
  intros mini names vs; induction vs as [|v vs IH]; intros k i; simpl.
  - destruct i; reflexivity.
  - destruct i as [|i]; simpl; [rewrite Nat.add_0_r; reflexivity|].
    rewrite IH, Nat.add_succ_r. reflexivity.
Qed.

Lemma ids_single_length : forall mini names vs k,
  List.length (ids_single mini names vs k) = List.length vs.
Proof. intros mini names vs; induction vs; intros k; simpl; auto. Qed.

Lemma ids_multi_ok : forall mini names n vs k ids,
  ids_multi mini names n vs k = Ok ids ->
  List.length ids = List.length vs /\
  forall i v, nth_error vs i = Some v ->
    py_len v = Ok n /\ nth_error ids i = Some (mini names v (k + i)).
Proof.
  intros mini names n vs; induction vs as [|v vs IH]; intros k ids H; simpl in H.
  - injection H as <-. split; [reflexivity|intros [|i] v' Hv; discriminate].
  - destruct (py_len v) as [m|e] eqn:Elen; simpl in H; [|discriminate].
    destruct (negb (Nat.eqb m n)) eqn:Em; [discriminate|].
    apply negb_false_iff, Nat.eqb_eq in Em; subst m.
    destruct (ids_multi mini names n vs (S k)) as [rest|e] eqn:Er; simpl in H; [|discriminate].
    injection H as <-. destruct (IH _ _ Er) as [Hl Hn].
    split; [simpl; rewrite Hl; reflexivity|].
    intros [|i] v' Hv; simpl in Hv.
    + injection Hv as <-. rewrite Nat.add_0_r. auto.
    + destruct (Hn i v' Hv) as [H1 H2]. split; [exact H1|]. simpl. rewrite H2. f_equal. f_equal. lia.
Qed.

(** X3: [make_test_ids_from_param_values] refuses an empty list of names
    with a ValueError; otherwise, when it succeeds, it gives one id per
    value, the [i]-th computed by [mini_idvalset] at index [i], from the
    one-tuple [(v,)] when there is one name and from the value itself, whose
    length was checked to be the number of names, when there are several. *)
Theorem make_test_ids_from_param_values_ids : forall mini names vs ids,
  make_test_ids_from_param_values mini (Some []) (Some vs) = Raise (ValueError "empty list provided") /\
  (make_test_ids_from_param_values mini (Some names) (Some vs) = Ok ids ->
   List.length ids = List.length vs /\
   forall i v, nth_error vs i = Some v ->
     (List.length names = 1 /\ nth_error ids i = Some (mini names (PTuple [v]) i)) \/
     (1 < List.length names /\ py_len v = Ok (List.length names) /\
      nth_error ids i = Some (mini names v i))).
Proof.
  intros mini names vs ids. split; [reflexivity|]. intros H.
  unfold make_test_ids_from_param_values in H.
  destruct (List.length names) as [|n] eqn:Elen; [discriminate|].
  destruct (Nat.eqb (S n) 1) eqn:E1.
  - apply Nat.eqb_eq in E1. injection H as <-.
    split; [apply ids_single_length|].
    intros i v Hv. left. split; [lia|]. rewrite ids_single_nth, Hv. reflexivity.
  - apply Nat.eqb_neq in E1. destruct (ids_multi_ok _ _ _ _ _ _ H) as [Hl Hn].
    split; [exact Hl|]. intros i v Hv. right. destruct (Hn i v Hv) as [H1 H2].
    split; [lia|]. split; [exact H1|exact H2].
Qed.

Lemma list_setitem_length : forall {A} (l l' : list A) i x,
  list_setitem l i x = Ok l' -> List.length l' = List.length l.
Proof.
  intros A l; induction l as [|h t IH]; intros l' i x H; simpl in H; [discriminate|].
  destruct i as [|i]; [injection H as <-; reflexivity|].
  destruct (list_setitem t i x) as [t'|e] eqn:E; simpl in H; [|discriminate].
  injection H as <-. simpl. rewrite (IH _ _ _ E). reflexivity.
Qed.

Lemma list_setitem_ok_iff : forall {A} (l : list A) i x,
  (exists l', list_setitem l i x = Ok l') <-> i < List.length l.
Proof.
  intros A l; induction l as [|h t IH]; intros i x; simpl.
  - split; [intros [l' H]; discriminate|lia].
  - destruct i as [|i]; [split; [lia|eexists; reflexivity]|].
    destruct (list_setitem t i x) as [t'|e] eqn:E; simpl.
    + split; [|eexists; reflexivity]. intros _. assert (i < List.length t); [|lia].
      apply (proj1 (IH i x)). exists t'. exact E.
    + split; [intros [l' H]; discriminate|]. intros Hi.
      destruct (proj2 (IH i x) ltac:(lia)) as [l' H]. rewrite H in E. discriminate.
Qed.

Lemma list_setitem_raise : forall {A} (l : list A) i x e,
  list_setitem l i x = Raise e -> e = IndexError.
Proof.
  intros A l; induction l as [|h t IH]; intros i x e H; simpl in H.
  - injection H as <-; reflexivity.
  - destruct i as [|i]; [discriminate|].
    destruct (list_setitem t i x) eqn:E; simpl in H; [discriminate|].
    injection H as <-. exact (IH _ _ _ E).
Qed.

Lemma override_ids_ok : forall idm p k r,
  override_ids p idm k = Ok r ->
  List.length r = List.length p /\
  forall i s, nth_error idm i = Some (Some s) -> k + i < List.length p.
Proof.
  induction idm as [|m idm IH]; intros p k r H; simpl in H.
  - injection H as <-. split; [reflexivity|intros [|i] s Hs; discriminate].
  - destruct m as [id|].
    + destruct (list_setitem p k id) as [p'|e] eqn:E; simpl in H; [|discriminate].
      destruct (IH _ _ _ H) as [Hl Hi]. rewrite (list_setitem_length _ _ _ _ E) in Hl, Hi.
      split; [exact Hl|]. intros [|i] s Hs; simpl in Hs.
      * rewrite Nat.add_0_r. apply (proj1 (list_setitem_ok_iff p k id)). exists p'. exact E.
      * specialize (Hi i s Hs). lia.
    + simpl in H. destruct (IH _ _ _ H) as [Hl Hi]. split; [exact Hl|].
      intros [|i] s Hs; simpl in Hs; [discriminate|]. specialize (Hi i s Hs). lia.
Qed.

Lemma override_ids_raise : forall idm p k e,
  override_ids p idm k = Raise e ->
  e = IndexError /\ exists i s, nth_error idm i = Some (Some s) /\ List.length p <= k + i.
Proof.
  induction idm as [|m idm IH]; intros p k e H; simpl in H; [discriminate|].
  destruct m as [id|].
  - destruct (list_setitem p k id) as [p'|e'] eqn:E; simpl in H.
    + destruct (IH _ _ _ H) as [He [i [s [Hs Hle]]]].
      rewrite (list_setitem_length _ _ _ _ E) in Hle.
      split; [exact He|]. exists (S i), s. split; [exact Hs|lia].
    + injection H as <-. split; [exact (list_setitem_raise _ _ _ _ E)|].
      exists 0, id. split; [reflexivity|].
      destruct (le_lt_dec (List.length p) k) as [Hle|Hlt]; [lia|].
      destruct (proj2 (list_setitem_ok_iff p k id) Hlt) as [l' Hl']. rewrite Hl' in E. discriminate.
  - simpl in H. destruct (IH _ _ _ H) as [He [i [s [Hs Hle]]]].
    split; [exact He|]. exists (S i), s. split; [exact Hs|lia].
Qed.

(** X4: with an explicit list of global ids, [make_test_ids] returns a list
    as long as that list, whatever the values; it fails, with an IndexError,
    exactly when an id mark that is not None sits at an index past the end
    of that list. *)
Theorem make_test_ids_global_list : forall mini l id_marks argnames argvalues pre,
  (forall ids, make_test_ids mini (Some (GIdList l)) id_marks argnames argvalues pre = Ok ids ->
               List.length ids = List.length l) /\
  (make_test_ids mini (Some (GIdList l)) id_marks argnames argvalues pre = Raise IndexError <->
   exists i s, nth_error id_marks i = Some (Some s) /\ List.length l <= i).
Proof.
  intros mini l idm an av pre. unfold make_test_ids; simpl. split.
  - intros ids H. exact (proj1 (override_ids_ok _ _ _ _ H)).
  - split.
    + intros H. exact (proj2 (override_ids_raise _ _ _ _ H)).
    + intros [i [s [Hs Hle]]]. destruct (override_ids l idm 0) as [r|e] eqn:E.
      * destruct (override_ids_ok _ _ _ _ E) as [_ Hi]. specialize (Hi i s Hs). lia.
      * rewrite (proj1 (override_ids_raise _ _ _ _ E)). reflexivity.
Qed.

(** ** [extract_parameterset_info] and [analyze_parameter_set] *)

Lemma extract_loop_pointwise : forall n c vs ids ms pvs ids' ms' pvs',
  extract_parameterset_info_loop n c vs ids ms pvs = Ok (ids', ms', pvs') ->
  exists a b d, ids' = ids ++ a /\ ms' = ms ++ b /\ pvs' = pvs ++ d /\
    List.length a = List.length vs /\ List.length b = List.length vs /\
    List.length d = List.length vs /\
    forall i v, nth_error vs i = Some v ->
      exists id m pv, extract_pset_info_single n v = Ok (id, m, pv) /\
        nth_error a i = Some id /\ nth_error b i = Some m /\ nth_error d i = Some pv.
Proof.
  intros n c vs; induction vs as [|v vs IH]; intros ids ms pvs ids' ms' pvs' H; simpl in H.
  - injection H as <- <- <-. exists [], [], [].
    rewrite !app_nil_r. repeat split; try reflexivity. intros [|i] v Hv; discriminate.
  - destruct (extract_pset_info_single n v) as [[[id m] pv]|e] eqn:Ev; simpl in H; [|discriminate].
    destruct (if c && Nat.ltb 1 n then let* k := py_len pv in Ok (negb (Nat.eqb k n)) else Ok false)
      as [bad|e]; simpl in H; [|discriminate].
    destruct bad; [discriminate|].
    destruct (IH _ _ _ _ _ _ H) as [a [b [d [Ha [Hb [Hd [La [Lb [Ld Hn]]]]]]]]].
    exists (id :: a), (m :: b), (pv :: d).
    rewrite <- !app_assoc in Ha, Hb, Hd. simpl in Ha, Hb, Hd.
    repeat split; try assumption; simpl; try lia.
    intros [|i] v' Hv; simpl in Hv.
    + injection Hv as <-. exists id, m, pv. auto.
    + exact (Hn i v' Hv).
Qed.

(** X5: when [extract_parameterset_info] succeeds, it returns three lists as
    long as the argvalues, whose [i]-th entries are the id, marks and value
    that [extract_pset_info_single] gives for the [i]-th argvalue. *)
Theorem extract_parameterset_info_pointwise : forall argnames argvalues check_nb pids pmarks pvalues,
  extract_parameterset_info argnames argvalues check_nb = Ok (pids, pmarks, pvalues) ->
  List.length pids = List.length argvalues /\ List.length pmarks = List.length argvalues /\
  List.length pvalues = List.length argvalues /\
  forall i v, nth_error argvalues i = Some v ->
    exists id m pv, extract_pset_info_single (List.length argnames) v = Ok (id, m, pv) /\
      nth_error pids i = Some id /\ nth_error pmarks i = Some m /\ nth_error pvalues i = Some pv.
Proof.
  intros names vals c pids pmarks pvalues H. unfold extract_parameterset_info in H.
  destruct (extract_loop_pointwise _ _ _ _ _ _ _ _ _ H) as [a [b [d [-> [-> [-> [La [Lb [Ld Hn]]]]]]]]].
  simpl. auto.
Qed.

Lemma make_test_ids_from_param_values_length : forall mini names vs ids,
  make_test_ids_from_param_values mini (Some names) (Some vs) = Ok ids ->
  List.length ids = List.length vs.
Proof.
  intros mini names vs ids H. unfold make_test_ids_from_param_values in H.
  destruct (List.length names) as [|n]; [discriminate|].
  destruct (Nat.eqb (S n) 1).
  - injection H as <-. apply ids_single_length.
  - exact (proj1 (ids_multi_ok _ _ _ _ _ _ H)).
Qed.

(** X6: giving [analyze_parameter_set] a parametrize mark together with any
    of argnames, argvalues or ids raises a ValueError, and a mark alone is
    read as its names, values and ids. With names and values and no global
    ids, a success gives one id, one marks entry and one value per argvalue,
    and the id of an argvalue [pytest.param(..., id=s)] is [s]. *)
Theorem analyze_parameter_set_ids :
  (forall mini pm argnames argvalues ids check_nb,
     argnames <> None \/ argvalues <> None \/ ids <> None ->
     analyze_parameter_set mini (Some pm) argnames argvalues ids check_nb
       = Raise (ValueError "Either provide a pmark OR the details")) /\
  (forall mini pm check_nb,
     analyze_parameter_set mini (Some pm) None None None check_nb =
     analyze_parameter_set mini None (Some (param_names pm)) (Some (param_values pm))
                           (param_ids pm) check_nb) /\
  (forall mini argnames argvalues check_nb p_ids p_marks p_values,
     analyze_parameter_set mini None (Some argnames) (Some argvalues) None check_nb
       = Ok (p_ids, p_marks, p_values) ->
     List.length p_ids = List.length argvalues /\ List.length p_marks = List.length argvalues /\
     List.length p_values = List.length argvalues /\
     forall i s ms vs, nth_error argvalues i = Some (PParam (Some s) ms vs) ->
       nth_error p_ids i = Some s).
Proof.
  split; [|split].
  - intros mini pm an av ids c H. unfold analyze_parameter_set.
    destruct an, av, ids; try reflexivity; exfalso; intuition congruence.
  - reflexivity.
  - intros mini names vals c p_ids p_marks p_values H. unfold analyze_parameter_set in H. simpl in H.
    destruct (extract_parameterset_info names vals c) as [[[pids pmarks] pvalues]|e] eqn:E;
      simpl in H; [|discriminate].
    destruct (make_test_ids mini None pids (Some names) (Some pvalues) None) as [ids|e] eqn:M;
      simpl in H; [|discriminate].
    injection H as <- <- <-.
    unfold extract_parameterset_info in E.
    destruct (extract_loop_pointwise _ _ _ _ _ _ _ _ _ E) as [a [b [d [Ha [Hb [Hd [La [Lb [Ld Hn]]]]]]]]].
    simpl in Ha, Hb, Hd; subst a b d.
    unfold make_test_ids in M.
    destruct (make_test_ids_from_param_values mini (Some names) (Some pvalues)) as [base|e] eqn:B;
      simpl in M; [|discriminate].
    pose proof (make_test_ids_from_param_values_length _ _ _ _ B) as Lbase.
    destruct (override_ids_ok _ _ _ _ M) as [Lids _].
    repeat split; try lia.
    intros i s ms vs Hv. rewrite (override_ids_nth _ _ _ _ M i). simpl. rewrite Nat.sub_0_r.
    destruct (Hn i _ Hv) as [id [m [pv [Hs [Hid _]]]]]. rewrite Hid.
    simpl in Hs. destruct (Nat.eqb (List.length names) 1), vs; try discriminate;
      injection Hs as <- _ _; reflexivity.
Qed.

(** ** [_cart_product_pytest] and [itertools.product] *)

Lemma map_flat_map_comm : forall A B C (f : B -> C) (g : A -> list B) l,
  map f (flat_map g l) = flat_map (fun x => map f (g x)) l.
Proof. induction l as [|x l IH]; simpl; [reflexivity|]. rewrite map_app, IH. reflexivity. Qed.

Lemma flat_map_map_comm : forall A B C (g : B -> list C) (f : A -> B) l,
  flat_map g (map f l) = flat_map (fun x => g (f x)) l.
Proof. induction l as [|x l IH]; simpl; [reflexivity|]. rewrite IH. reflexivity. Qed.

Lemma flat_map_ext_in : forall A B (g1 g2 : A -> list B) l,
  (forall x, In x l -> g1 x = g2 x) -> flat_map g1 l = flat_map g2 l.
Proof.
  induction l as [|x l IH]; intros H; simpl; [reflexivity|].
  rewrite (H x (or_introl eq_refl)), IH; [reflexivity|]. intros y Hy; apply H; right; exact Hy.
Qed.

Lemma cart_loop_map : forall names sp xs acc (g : pyval -> list mark * list pyval),
  (forall x, In x xs -> cart_entry names x = Ok (g x)) ->
  cart_loop names sp xs acc =
  Ok (acc ++ flat_map (fun x =>
                         match sp with
                         | Some l => map (fun '(m, p) => (fst (g x) ++ m, snd (g x) ++ p)) l
                         | None => [g x]
                         end) xs).
Proof.
  intros names sp xs; induction xs as [|x xs IH]; intros acc g H; simpl.
  - rewrite app_nil_r. reflexivity.
  - rewrite (H x (or_introl eq_refl)). simpl. destruct (g x) as [xm xv] eqn:Eg.
    rewrite (IH _ g); [|intros y Hy; apply H; right; exact Hy].
    simpl. rewrite app_assoc. destruct sp; reflexivity.
Qed.

Lemma cart_entry_single : forall n0 names x,
  List.length n0 = 1 -> single_entry_ok x = true ->
  cart_entry (n0 :: names) x = Ok (fst (entry_marks_value x), [snd (entry_marks_value x)]).
Proof.
  intros n0 names x Hn Hx. unfold cart_entry. rewrite Hn.
  destruct x as [| | | | | |[s|] ms [|v vs]]; try reflexivity; discriminate.
Qed.

Lemma cart_product_pytest_cons2 : forall anl xs y r,
  _cart_product_pytest anl (xs :: y :: r) =
  res_bind (_cart_product_pytest (tl anl) (y :: r)) (fun sp => cart_loop anl (Some sp) xs []).
Proof.
  intros anl xs y r.
  change (_cart_product_pytest anl (xs :: y :: r)) with
    (res_bind (res_bind (_cart_product_pytest (tl anl) (y :: r)) (fun sp => Ok (Some sp)))
              (fun sub => cart_loop anl sub xs [])).
  destruct (_cart_product_pytest (tl anl) (y :: r)); reflexivity.
Qed.

(** X7: when every dimension has one argument name and every entry is a
    bare value or a [pytest.param] with no id and a value,
    [_cart_product_pytest] enumerates the combinations in the order of
    [itertools.product] (first dimension slowest), giving for each the
    concatenation of the marks of its entries, in dimension order, and the
    list of their values. *)
Theorem cart_product_pytest_itertools : forall argnames_lists argvalues,
  argvalues <> [] -> List.length argnames_lists = List.length argvalues ->
  Forall (fun names => List.length names = 1) argnames_lists ->
  Forall (Forall (fun x => single_entry_ok x = true)) argvalues ->
  _cart_product_pytest argnames_lists argvalues =
  Ok (map (fun combo => (List.concat (map fst combo), map snd combo))
          (itertools_product (map (map entry_marks_value) argvalues))).
Proof.
  intros argnames_lists argvalues; revert argnames_lists.
  induction argvalues as [|xs rest IH]; intros anl Hne Hlen Hn Hok; [contradiction|].
  destruct anl as [|n0 ns]; [discriminate|]. simpl in Hlen.
  inversion Hn as [|? ? Hn0 Hns]; subst. inversion Hok as [|? ? Hxs Hrest]; subst.
  set (g := fun x => (fst (entry_marks_value x), [snd (entry_marks_value x)])).
  assert (Hg : forall x, In x xs -> cart_entry (n0 :: ns) x = Ok (g x)).
  { intros x Hx. apply cart_entry_single; [exact Hn0|]. rewrite Forall_forall in Hxs. exact (Hxs x Hx). }
  destruct rest as [|xs1 rest'].
  - simpl. rewrite (cart_loop_map _ None xs [] g Hg). simpl. f_equal.
    rewrite map_flat_map_comm, flat_map_map_comm. apply flat_map_ext_in.
    intros x _. simpl. rewrite app_nil_r. reflexivity.
  - rewrite cart_product_pytest_cons2. cbn [tl].
    rewrite (IH ns) by (try discriminate; simpl in *; lia || assumption).
    cbn [res_bind]. rewrite (cart_loop_map _ _ xs [] g Hg). f_equal. rewrite app_nil_l.
    set (P := itertools_product (map (map entry_marks_value) (xs1 :: rest'))).
    change (itertools_product (map (map entry_marks_value) (xs :: xs1 :: rest')))
      with (flat_map (fun y => map (cons y) P) (map entry_marks_value xs)).
    rewrite map_flat_map_comm, flat_map_map_comm. apply flat_map_ext_in.
    intros x _. rewrite !map_map. apply map_ext. intros combo. reflexivity.
Qed.

(** ** [get_parametrize_args] *)

Lemma case_to_argvalues_store : forall class_bases type_attr c st r st',
  case_to_argvalues class_bases type_attr c st = (Ok r, st') ->
  if needs_fixture c then
    is_none_attr (getattr class_bases type_attr st (fixture_host c) (cf_id c)) = true /\
    st' = store_set st (fixture_host c) (cf_id c) (AFixture (cf_id c) (cf_func c))
  else st' = st.
Proof.
  intros cb ta c st r st' H. unfold case_to_argvalues in H. unfold needs_fixture.
  destruct (requires_fixtures c) as [[|]|e]; [|destruct (negb (cf_is_parametrized c)); congruence|discriminate].
  destruct (is_none_attr (getattr cb ta st (fixture_host c) (cf_id c))) eqn:E; [|discriminate].
  split; [reflexivity|congruence].
Qed.

(** X8: when [get_parametrize_args] succeeds, the cases that need a fixture
    have pairwise distinct (host, case id) pairs, and for each of them
    [getattr(host, case_id, None)] was [None] before the call (on the host,
    its bases and its type); afterwards the [__dict__] of each host binds
    the case id to the fixture created from the case function, which
    [getattr] then finds, and every other binding of every [__dict__] is
    unchanged. *)
Theorem get_parametrize_args_fixtures :
  forall class_bases type_attr elem of_argvalue iter_marked cases_funs st l st',
  get_parametrize_args class_bases type_attr elem of_argvalue iter_marked cases_funs st
    = (Ok l, st') ->
  let fx := filter needs_fixture cases_funs in
  NoDup (map (fun c => (fixture_host c, cf_id c)) fx) /\
  Forall (fun c => is_none_attr (getattr class_bases type_attr st (fixture_host c) (cf_id c))
                   = true) fx /\
  Forall (fun c => st' (fixture_host c) (cf_id c) = Some (AFixture (cf_id c) (cf_func c)) /\
                   getattr class_bases type_attr st' (fixture_host c) (cf_id c)
                     = Some (AFixture (cf_id c) (cf_func c))) fx /\
  (forall h k, (forall c, In c fx -> (fixture_host c, cf_id c) <> (h, k)) -> st' h k = st h k).
Proof.
  intros cb ta elem ofa itm cs; induction cs as [|c cs IH]; intros st l st' H fx; subst fx;
    simpl in H |- *.
  - injection H as <- <-. repeat split; auto; constructor.
  - destruct (case_to_argvalues cb ta c st) as [[r|e] st1] eqn:E1; [|discriminate].
    destruct (get_parametrize_args cb ta elem ofa itm cs st1) as [[l'|e] st2] eqn:E2; [|discriminate].
    injection H as <- <-.
    destruct (IH _ _ _ E2) as [Hnd [Hfree [Hset Hframe]]].
    pose proof (case_to_argvalues_store _ _ _ _ _ _ E1) as Hs.
    destruct (needs_fixture c) eqn:Ec.
    + destruct Hs as [Hnone ->]. simpl.
      set (F := AFixture (cf_id c) (cf_func c)) in *.
      assert (HF : is_none_attr (Some F) = false) by reflexivity.
      assert (Hdiff : forall c', In c' (filter needs_fixture cs) ->
                        (fixture_host c, cf_id c) <> (fixture_host c', cf_id c')).
      { intros c' Hc' Heq. rewrite Forall_forall in Hfree. specialize (Hfree c' Hc').
        injection Heq as Eh Ek. rewrite <- Eh, <- Ek in Hfree.
        rewrite (getattr_own cb ta _ _ _ _ (store_set_same st _ _ F)) in Hfree. discriminate. }
      repeat split.
      * constructor; [|exact Hnd]. intros Hin. apply in_map_iff in Hin as [c' [Heq Hc']].
        exact (Hdiff c' Hc' (eq_sym Heq)).
      * constructor; [exact Hnone|]. rewrite Forall_forall in Hfree |- *. intros c' Hc'.
        rewrite (getattr_store_set cb ta st _ _ F _ _ HF (Hfree c' Hc')). exact (Hfree c' Hc').
      * constructor; [|exact Hset].
        assert (Hown : st2 (fixture_host c) (cf_id c) = Some F).
        { rewrite Hframe; [apply store_set_same|].
          intros c' Hc' Heq. exact (Hdiff c' Hc' (eq_sym Heq)). }
        split; [exact Hown|exact (getattr_own cb ta _ _ _ _ Hown)].
      * intros h k Hk. rewrite Hframe by (intros c' Hc'; apply Hk; right; exact Hc').
        apply store_set_other. apply Hk. left; reflexivity.
    + subst st1. auto.
Qed.

(** X9: cases that need no fixture never make [get_parametrize_args] fail
    and leave every host unchanged; each contributes one argvalue, or one per
    call of its parametrization when it is parametrized. *)
Theorem get_parametrize_args_no_fixture :
  forall class_bases type_attr elem of_argvalue iter_marked cases_funs st,
  Forall (fun c => requires_fixtures c = Ok false) cases_funs ->
  exists l, get_parametrize_args class_bases type_attr elem of_argvalue iter_marked cases_funs st
              = (Ok l, st) /\
    List.length l = fold_right plus 0
      (map (fun c => if cf_is_parametrized c then List.length (cf_calls c) else 1) cases_funs).
Proof.
  intros cb ta elem ofa itm cs st H; induction H as [|c cs Hc Hcs IH]; simpl.
  - exists []. split; reflexivity.
  - destruct IH as [l [Hl Hlen]].
    unfold case_to_argvalues at 1. rewrite Hc.
    destruct (cf_is_parametrized c); simpl; rewrite Hl.
    + eexists; split; [reflexivity|]. simpl. rewrite length_app, length_map, length_map, Hlen. reflexivity.
    + eexists; split; [reflexivity|]. simpl. rewrite Hlen. reflexivity.
Qed.

(** ** Module names: [split('.')], [join] and the default cases modules *)

Lemma str_app_nil_r : forall s, (s ++ EmptyString)%string = s.
Proof. induction s as [|c s IH]; simpl; [reflexivity|rewrite IH; reflexivity]. Qed.

Lemma str_app_assoc : forall a b c, (a ++ (b ++ c))%string = ((a ++ b) ++ c)%string.
Proof. induction a as [|x a IH]; intros b c; simpl; [reflexivity|rewrite IH; reflexivity]. Qed.

Lemma split_dot_aux_nonempty : forall s cur, split_dot_aux s cur <> [].
Proof.
  induction s as [|c s IH]; intros cur; simpl; [discriminate|].
  destruct (Ascii.eqb c "."); [discriminate|apply IH].
Qed.

Lemma removelast_cons_ne : forall A (a : A) l, l <> [] -> removelast (a :: l) = a :: removelast l.
Proof. intros A a [|b l] H; [contradiction|reflexivity]. Qed.

Lemma last_cons_ne : forall A (a d : A) l, l <> [] -> last (a :: l) d = last l d.
Proof. intros A a d [|b l] H; [contradiction|reflexivity]. Qed.

Lemma split_dot_aux_app : forall a s cur,
  split_dot_aux (a ++ s) cur =
  removelast (split_dot_aux a cur) ++ split_dot_aux s (last (split_dot_aux a cur) EmptyString).
Proof.
  induction a as [|c a IH]; intros s cur; simpl; [reflexivity|].
  destruct (Ascii.eqb c "."); [|apply IH].
  rewrite IH, removelast_cons_ne, last_cons_ne by apply split_dot_aux_nonempty. reflexivity.
Qed.

Lemma split_dot_aux_nodot : forall s cur, no_dot s = true -> split_dot_aux s cur = [(cur ++ s)%string].
Proof.
  induction s as [|c s IH]; intros cur H; simpl in H |- *.
  - rewrite str_app_nil_r. reflexivity.
  - destruct (Ascii.eqb c ".") eqn:E; [discriminate|]. simpl in H.
    rewrite IH by exact H. rewrite <- str_app_assoc. reflexivity.
Qed.

Lemma split_dot_nodot : forall s, no_dot s = true -> split_dot s = [s].
Proof. intros s H. unfold split_dot. rewrite split_dot_aux_nodot by exact H. reflexivity. Qed.

Lemma split_dot_snoc : forall pkg base, no_dot base = true ->
  split_dot (pkg ++ String "." base) = split_dot pkg ++ [base].
Proof.
  intros pkg base H. unfold split_dot. rewrite split_dot_aux_app. simpl.
  rewrite (split_dot_aux_nodot base EmptyString H). simpl.
  pose proof (app_removelast_last EmptyString (split_dot_aux_nonempty pkg EmptyString)) as HP.
  set (P := split_dot_aux pkg EmptyString) in *.
  transitivity ((removelast P ++ [last P EmptyString]) ++ [base]);
    [rewrite <- app_assoc; reflexivity|rewrite <- HP; reflexivity].
Qed.

Lemma concat_split_dot_aux : forall s cur,
  String.concat "." (split_dot_aux s cur) = (cur ++ s)%string.
Proof.
  induction s as [|c s IH]; intros cur; simpl.
  - rewrite str_app_nil_r. reflexivity.
  - destruct (Ascii.eqb c ".") eqn:E.
    + apply Ascii.eqb_eq in E; subst c.
      pose proof (split_dot_aux_nonempty s EmptyString) as Hne.
      destruct (split_dot_aux s EmptyString) as [|p ps] eqn:Es; [contradiction|].
      change (String.concat "." (cur :: p :: ps)) with (cur ++ "." ++ String.concat "." (p :: ps))%string.
      rewrite <- Es, IH. reflexivity.
    + rewrite IH, <- str_app_assoc. reflexivity.
Qed.

Lemma concat_split_dot : forall s, String.concat "." (split_dot s) = s.
Proof. intros s. unfold split_dot. apply concat_split_dot_aux. Qed.

Lemma substring_full : forall s, substring 0 (String.length s) s = s.
Proof. induction s as [|c s IH]; simpl; [reflexivity|]. rewrite IH. reflexivity. Qed.

Lemma substring_tail : forall c x, substring 1 (String.length (String c x) - 1) (String c x) = x.
Proof. intros c x. simpl. rewrite Nat.sub_0_r. apply substring_full. Qed.

Lemma prefix_substring : forall n s, String.prefix (substring 0 n s) s = true.
Proof.
  induction n as [|n IH]; intros [|c s]; simpl; try reflexivity.
  destruct (ascii_dec c c) as [_|Hc]; [apply IH|contradiction].
Qed.

Lemma resolve_name_absolute : forall name full,
  resolve_name name None = Ok full -> full = name.
Proof.
  intros name full H. unfold resolve_name in H.
  destruct (Nat.eqb (count_leading_dots name) 0); [|discriminate].
  destruct (String.eqb name EmptyString); [discriminate|]. congruence.
Qed.

Lemma import_module_ok : forall sys name package md,
  import_module sys name package = Ok md ->
  exists full, resolve_name name package = Ok full /\ In md sys /\ mod_name md = full.
Proof.
  intros sys name package md H. unfold import_module in H.
  destruct (resolve_name name package) as [full|e]; simpl in H; [|discriminate].
  exists full. split; [reflexivity|].
  destruct (find (fun md => String.eqb (mod_name md) full) sys) as [m|] eqn:F; [|discriminate].
  injection H as <-. apply find_some in F as [Hin Heq]. apply String.eqb_eq in Heq. auto.
Qed.

Lemma import_default_ok : forall sys f alt md,
  import_default_cases_module sys f alt = Ok md ->
  exists name, default_cases_module_name f alt = Ok name /\ In md sys /\ mod_name md = name.
Proof.
  intros sys f alt md H. unfold import_default_cases_module in H.
  destruct (default_cases_module_name f alt) as [name|e]; simpl in H; [|discriminate].
  exists name. split; [reflexivity|].
  destruct (import_module sys name None) as [m|[]] eqn:E; try discriminate.
  injection H as <-. destruct (import_module_ok _ _ _ _ E) as [full [Hr [Hin Hn]]].
  apply resolve_name_absolute in Hr. subst. auto.
Qed.

(** X10: a cases module found by [import_default_cases_module] is one of
    the importable modules, named [<module>_cases] in the AUTO mode and,
    in the AUTO2 mode for a test module [<pkg>.test_<name>],
    [<pkg>.cases_<name>]. *)
Theorem import_default_cases_module_names : forall sys_modules f md,
  (import_default_cases_module sys_modules f false = Ok md ->
   In md sys_modules /\ mod_name md = (tf_module f ++ "_cases")%string) /\
  (forall pkg name, tf_module f = (pkg ++ ".test_" ++ name)%string -> no_dot name = true ->
   import_default_cases_module sys_modules f true = Ok md ->
   In md sys_modules /\ mod_name md = (pkg ++ ".cases_" ++ name)%string).
Proof.
  intros sys f md. split.
  - intros H. destruct (import_default_ok _ _ _ _ H) as [name [Hn [Hin Hm]]].
    simpl in Hn. injection Hn as <-. auto.
  - intros pkg name Hf Hnd H. destruct (import_default_ok _ _ _ _ H) as [nm [Hn [Hin Hm]]].
    split; [exact Hin|]. rewrite Hm. unfold default_cases_module_name in Hn.
    rewrite Hf in Hn. change (".test_" ++ name)%string with (String "." ("test_" ++ name)) in Hn.
    rewrite split_dot_snoc in Hn by exact Hnd.
    rewrite last_last, removelast_last, concat_split_dot in Hn. simpl in Hn.
    rewrite ?Nat.sub_0_r, substring_full in Hn.
    assert (E0 : substring 0 0 name = EmptyString) by (destruct name; reflexivity).
    rewrite E0 in Hn. simpl in Hn. injection Hn as <-. reflexivity.
Qed.

(** X11: in the AUTO2 mode, a test module whose last dotted part does not
    start with [test_] fails the assertion of [import_default_cases_module]
    (an AssertionError, not the ValueError of a failed import); and a
    top-level test module [test_<name>] (no package) gives the relative name
    [.cases_<name>], whose import fails with a TypeError, also not turned
    into the ValueError. *)
Theorem import_default_cases_module_auto2_edges :
  (forall sys_modules f base,
     no_dot base = true ->
     ((exists pkg, tf_module f = (pkg ++ "." ++ base)%string) \/ tf_module f = base) ->
     String.prefix "test_" base = false ->
     import_default_cases_module sys_modules f true = Raise AssertionError) /\
  (forall sys_modules f name,
     tf_module f = ("test_" ++ name)%string -> no_dot name = true ->
     exists msg, import_default_cases_module sys_modules f true = Raise (TypeError msg)).
Proof.
  split.
  - intros sys f base Hnd Hf Hp. unfold import_default_cases_module, default_cases_module_name.
    assert (Hl : last (split_dot (tf_module f)) EmptyString = base).
    { destruct Hf as [[pkg ->]| ->].
      - change ("." ++ base)%string with (String "." base). rewrite split_dot_snoc by exact Hnd.
        apply last_last.
      - rewrite split_dot_nodot by exact Hnd. reflexivity. }
    rewrite Hl. destruct (String.eqb (substring 0 5 base) "test_") eqn:E; [|reflexivity].
    apply String.eqb_eq in E. pose proof (prefix_substring 5 base) as Hps. rewrite E in Hps. congruence.
  - intros sys f name Hf Hnd. unfold import_default_cases_module, default_cases_module_name.
    rewrite Hf. rewrite split_dot_nodot by exact Hnd. simpl.
    assert (E0 : substring 0 0 name = EmptyString) by (destruct name; reflexivity).
    rewrite E0. eexists. reflexivity.
Qed.

(** X12: in [get_all_cases], a relative module name [.x] given as a
    provider is imported from the package of the test module: for a test
    module [<pkg>.<base>] it names the module [<pkg>.x] (an ImportError
    if none is importable), and for a top-level test module (no package) its
    import fails with a TypeError. *)
Theorem collect_provider_relative_module :
  (forall is_case_class is_case_function sys_modules CASE_PREFIX_FUN target prefix pkg base x w,
     tf_module target = (pkg ++ "." ++ base)%string -> no_dot base = true ->
     pkg <> EmptyString -> x <> EmptyString -> count_leading_dots x = 0 ->
     collect_provider is_case_class is_case_function sys_modules CASE_PREFIX_FUN target prefix
                      (PvModuleName (String "." x)) w =
     match find (fun md => String.eqb (mod_name md) (pkg ++ "." ++ x)) sys_modules with
     | Some md => collect_provider is_case_class is_case_function sys_modules CASE_PREFIX_FUN
                                   target prefix (PvModule md) w
     | None => (Raise (ImportError (pkg ++ "." ++ x)), w)
     end) /\
  (forall is_case_class is_case_function sys_modules CASE_PREFIX_FUN target prefix x w,
     no_dot (tf_module target) = true -> x <> EmptyString ->
     exists msg, collect_provider is_case_class is_case_function sys_modules CASE_PREFIX_FUN
                                  target prefix (PvModuleName (String "." x)) w
                 = (Raise (TypeError msg), w)).
Proof.
  split.
  - intros icc icf sys pfx target prefix pkg base x w Hf Hnd Hpkg Hx Hlev.
    unfold collect_provider. rewrite Hf.
    assert (Hpar : String.concat "." (removelast (split_dot (pkg ++ "." ++ base))) = pkg).
    { change ("." ++ base)%string with (String "." base). rewrite split_dot_snoc by exact Hnd.
      rewrite removelast_last. apply concat_split_dot. }
    rewrite Hpar.
    assert (Hdot : String.eqb (String "." x) "." = false).
    { destruct x; [contradiction|reflexivity]. }
    rewrite Hdot.
    assert (Hres : resolve_name (String "." x) (Some pkg) = Ok (pkg ++ "." ++ x)%string).
    { unfold resolve_name. simpl count_leading_dots. rewrite Hlev. simpl Nat.eqb.
      destruct pkg as [|c p] eqn:Ep; [contradiction|]. rewrite <- Ep.
      cbv beta iota. rewrite substring_tail.
      pose proof (split_dot_aux_nonempty pkg EmptyString) as Hne. unfold split_dot.
      destruct (split_dot_aux pkg EmptyString) as [|b bs] eqn:Eb; [contradiction|].
      assert (Hlt : (List.length (b :: bs) <? 1) = false) by reflexivity. rewrite Hlt.
      change (1 - 1) with 0. rewrite Nat.sub_0_r, firstn_all, <- Eb.
      change (String.concat "." (split_dot_aux pkg EmptyString))
        with (String.concat "." (split_dot pkg)).
      rewrite concat_split_dot. destruct x; [contradiction|reflexivity]. }
    unfold extract_cases_from_module, import_module, M_bind, M_lift, M_ret. rewrite Hres. cbn [res_bind].
    destruct (find (fun md => String.eqb (mod_name md) (pkg ++ "." ++ x)) sys); reflexivity.
  - intros icc icf sys pfx target prefix x w Hnd Hx.
    unfold collect_provider. rewrite split_dot_nodot by exact Hnd. simpl removelast.
    assert (Hdot : String.eqb (String "." x) "." = false).
    { destruct x; [contradiction|reflexivity]. }
    rewrite Hdot. eexists. reflexivity.
Qed.

(** ** Functions imported into a cases module are not collected *)

Lemma cls_deep_ind : forall (P : cls -> Prop),
  (forall c, Forall (fun nm => match snd nm with MClass c' => P c' | _ => True end) (cls_members c) ->
             P c) ->
  forall c, P c.
Proof.
  intros P H. fix IH 1. intros [n m l i nw ms d]. apply H. simpl.
  revert ms. fix IHl 1. intros [|[s mm] r]; constructor.
  - destruct mm as [f|c'|o]; simpl; [exact I|exact (IH c')|exact I].
  - exact (IHl r).
Qed.

Lemma extract_cases_from_class_eq : forall icc icf c check_name prefix,
  extract_cases_from_class icc icf c check_name prefix =
  if icc c check_name then
    if hasinit c then mlet _ := warn (init_warning c) in M_ret []
    else if hasnew c then mlet _ := warn (new_warning c) in M_ret []
    else _extract_cases_from_module_or_class icc icf
           (fun c' => extract_cases_from_class icc icf c' true prefix) None (Some c) prefix
  else M_ret [].
Proof. intros icc icf [] check_name prefix; reflexivity. Qed.

Lemma dict_setitem_in : forall d k0 v0 k v,
  In (k, v) (dict_setitem d k0 v0) -> In (k, v) d \/ v = v0.
Proof.
  induction d as [|[k1 v1] r IH]; intros k0 v0 k v H; simpl in H.
  - destruct H as [H|[]]. injection H as _ <-. right; reflexivity.
  - destruct (Qeq_bool k1 k0).
    + destruct H as [H|H]; [injection H as _ <-; right; reflexivity|left; right; exact H].
    + destruct H as [H|H]; [left; left; exact H|].
      destruct (IH _ _ _ _ H) as [H'|H']; [left; right; exact H'|right; exact H'].
Qed.

Lemma add_nested_cases_in : forall items d line n i k v,
  In (k, v) (add_nested_cases d line n items i) -> In (k, v) d \/ In v items.
Proof.
  induction items as [|it r IH]; intros d line n i k v H; simpl in H; [left; exact H|].
  destruct (IH _ _ _ _ _ _ H) as [H'|H'].
  - destruct (dict_setitem_in _ _ _ _ _ H') as [H''|<-]; [left; exact H''|right; left; reflexivity].
  - right; right; exact H'.
Qed.

Lemma dict_getitem_in : forall d k v, dict_getitem d k = Ok v -> exists k', In (k', v) d.
Proof.
  induction d as [|[k1 v1] r IH]; intros k v H; simpl in H; [discriminate|].
  destruct (Qeq_bool k1 k).
  - injection H as <-. exists k1; left; reflexivity.
  - destruct (IH _ _ H) as [k' Hk]. exists k'; right; exact Hk.
Qed.

Lemma res_map_in : forall A B (f : A -> res B) l r y,
  res_map f l = Ok r -> In y r -> exists x, In x l /\ f x = Ok y.
Proof.
  intros A B f; induction l as [|x l IH]; intros r y H Hy; simpl in H.
  - injection H as <-. destruct Hy.
  - destruct (f x) as [b|e] eqn:E; simpl in H; [|discriminate].
    destruct (res_map f l) as [bs|e] eqn:E2; simpl in H; [|discriminate].
    injection H as <-. destruct Hy as [Hy|Hy]; [subst y; exists x; split; [left; reflexivity|exact E]|].
    destruct (IH _ _ eq_refl Hy) as [x' [Hx' Hf]]. exists x'; split; [right; exact Hx'|exact Hf].
Qed.

Lemma sorted_cases_in : forall d r x, sorted_cases d = Ok r -> In x r -> exists k, In (k, x) d.
Proof.
  intros d r x H Hx. unfold sorted_cases in H.
  destruct (res_map_in _ _ _ _ _ _ H Hx) as [k [_ Hk]]. exact (dict_getitem_in _ _ _ Hk).
Qed.

Lemma scan_members_inv : forall (Q : case_item -> Prop) icc icf rec cls_opt prefix ms dct w d w',
  (forall k v, In (k, v) dct -> Q v) ->
  (forall nm dct w d w', In nm ms -> (forall k v, In (k, v) dct -> Q v) ->
     extract_member icc icf rec cls_opt prefix dct nm w = (Ok d, w') ->
     forall k v, In (k, v) d -> Q v) ->
  scan_members icc icf rec cls_opt prefix ms dct w = (Ok d, w') ->
  forall k v, In (k, v) d -> Q v.
Proof.
  intros Q icc icf rec cls_opt prefix ms; induction ms as [|nm ms IH];
    intros dct w d w' Hd Hstep H; simpl in H; unfold M_ret, M_bind in H.
  - injection H as <- _. exact Hd.
  - destruct (extract_member icc icf rec cls_opt prefix dct nm w) as [[d1|e] w1] eqn:E; [|discriminate].
    apply (IH d1 w1 d w'); [|intros; eapply Hstep; eauto; right; assumption|exact H].
    eapply Hstep; [left; reflexivity|exact Hd|exact E].
Qed.

Lemma extract_member_class_no_casefun : forall icc icf rec c prefix dct nm w d w',
  (forall k v, In (k, v) dct -> forall f, v <> CaseFun f) ->
  match snd nm with
  | MClass c' => forall w r w', rec c' w = (Ok r, w') -> forall f, ~ In (CaseFun f) r
  | _ => True
  end ->
  extract_member icc icf rec (Some c) prefix dct nm w = (Ok d, w') ->
  forall k v, In (k, v) d -> forall f, v <> CaseFun f.
Proof.
  intros icc icf rec c prefix dct [m_name m] w d w' Hd Hrec H k v Hin f Hv; subst v.
  simpl in H, Hrec. destruct m as [g|c'|o].
  - destruct (icf g prefix true); [|injection H as <- _; exact (Hd _ _ Hin f eq_refl)].
    destruct (assoc_lookup (cls_dict c) m_name) as [[| |]|]; try discriminate;
      injection H as <- _; try exact (Hd _ _ Hin f eq_refl).
    destruct (dict_setitem_in _ _ _ _ _ Hin) as [H'|H']; [exact (Hd _ _ H' f eq_refl)|discriminate].
  - destruct (icc c' true); [|injection H as <- _; exact (Hd _ _ Hin f eq_refl)].
    unfold M_bind, M_ret in H. destruct (rec c' w) as [[r|e] w1] eqn:E; [|discriminate].
    injection H as <- _. destruct (add_nested_cases_in _ _ _ _ _ _ _ Hin) as [H'|H'];
      [exact (Hd _ _ H' f eq_refl)|exact (Hrec _ _ _ E f H')].
  - injection H as <- _. exact (Hd _ _ Hin f eq_refl).
Qed.

Lemma extract_cases_from_class_no_casefun : forall icc icf c check_name prefix w r w',
  extract_cases_from_class icc icf c check_name prefix w = (Ok r, w') ->
  forall f, ~ In (CaseFun f) r.
Proof.
  intros icc icf c. revert c.
  apply (cls_deep_ind (fun c => forall check_name prefix w r w',
    extract_cases_from_class icc icf c check_name prefix w = (Ok r, w') ->
    forall f, ~ In (CaseFun f) r)).
  intros c Hsub check_name prefix w r w' H f Hf.
  rewrite extract_cases_from_class_eq in H.
  destruct (icc c check_name); [|injection H as <- _; exact Hf].
  destruct (hasinit c); [injection H as <- _; exact Hf|].
  destruct (hasnew c); [injection H as <- _; exact Hf|].
  unfold _extract_cases_from_module_or_class, M_bind, M_lift in H.
  destruct (scan_members icc icf (fun c' => extract_cases_from_class icc icf c' true prefix)
              (Some c) prefix (cls_members c) [] w) as [[d|e] w1] eqn:E; [|discriminate].
  injection H as Hs _. destruct (sorted_cases_in _ _ _ Hs Hf) as [k Hk].
  refine (scan_members_inv (fun v => forall f, v <> CaseFun f) _ _ _ _ _ _ _ _ _ _
            _ _ E k _ Hk f eq_refl).
  - intros k' v' [].
  - intros nm dct w0 d0 w0' Hnm Hdct Hem.
    rewrite Forall_forall in Hsub. specialize (Hsub nm Hnm).
    refine (extract_member_class_no_casefun _ _ _ _ _ _ _ _ _ _ Hdct _ Hem).
    destruct (snd nm); [exact I| |exact I]. intros w2 r2 w2' H2. exact (Hsub true prefix _ _ _ H2).
Qed.

Lemma module_scan_own_functions : forall icc icf md prefix w r w',
  _extract_cases_from_module_or_class icc icf
    (fun c' => extract_cases_from_class icc icf c' true prefix) (Some md) None prefix w
    = (Ok r, w') ->
  forall f, In (CaseFun f) r ->
    fn_module f = mod_name md /\ exists n, In (n, MFun f) (mod_members md).
Proof.
  intros icc icf md prefix w r w' H f Hf.
  unfold _extract_cases_from_module_or_class, M_bind, M_lift in H.
  set (ms := filter (of_interest_module md) (mod_members md)) in H.
  destruct (scan_members icc icf (fun c' => extract_cases_from_class icc icf c' true prefix)
              None prefix ms [] w) as [[d|e] w1] eqn:E; [|discriminate].
  injection H as Hs _. destruct (sorted_cases_in _ _ _ Hs Hf) as [k Hk].
  set (Q := fun v => forall g, v = CaseFun g ->
              fn_module g = mod_name md /\ exists n, In (n, MFun g) (mod_members md)).
  refine (scan_members_inv Q _ _ _ _ _ _ _ _ _ _ _ _ E k _ Hk f eq_refl).
  - intros k' v' [].
  - intros [m_name m] dct w0 d0 w0' Hnm Hdct Hem k1 v1 Hin g ->.
    simpl in Hem. destruct m as [g'|c'|o].
    + destruct (icf g' prefix true); [|injection Hem as <- _; exact (Hdct _ _ Hin g eq_refl)].
      injection Hem as <- _. destruct (dict_setitem_in _ _ _ _ _ Hin) as [H'|H'];
        [exact (Hdct _ _ H' g eq_refl)|].
      injection H' as <-. unfold ms in Hnm. apply filter_In in Hnm as [Hmem Hint].
      simpl in Hint. apply String.eqb_eq in Hint. split; [exact Hint|exists m_name; exact Hmem].
    + destruct (icc c' true); [|injection Hem as <- _; exact (Hdct _ _ Hin g eq_refl)].
      unfold M_bind, M_ret in Hem.
      destruct (extract_cases_from_class icc icf c' true prefix w0) as [[r1|e] w2] eqn:E1;
        [|discriminate].
      injection Hem as <- _. destruct (add_nested_cases_in _ _ _ _ _ _ _ Hin) as [H'|H'];
        [exact (Hdct _ _ H' g eq_refl)|].
      exfalso. exact (extract_cases_from_class_no_casefun _ _ _ _ _ _ _ _ E1 g H').
    + injection Hem as <- _. exact (Hdct _ _ Hin g eq_refl).
Qed.

(** X13: [extract_cases_from_module] on a module object only collects, as
    plain case functions, functions that are members of that module and
    whose [__module__] is that module: a function imported from another
    module is never collected as a plain case function. *)
Theorem extract_cases_from_module_own_functions :
  forall is_case_class is_case_function sys_modules md package_name prefix w r w',
  extract_cases_from_module is_case_class is_case_function sys_modules (MRObj md)
                            package_name prefix w = (Ok r, w') ->
  forall f, In (CaseFun f) r ->
    fn_module f = mod_name md /\ exists n, In (n, MFun f) (mod_members md).
Proof.
  intros icc icf sys md pkg prefix w r w' H.
  exact (module_scan_own_functions icc icf md prefix w r w' H).
Qed.

Lemma extract_cases_from_module_origin : forall icc icf sys mref pkg prefix w r w' f,
  extract_cases_from_module icc icf sys mref pkg prefix w = (Ok r, w') ->
  In (CaseFun f) r ->
  exists md, (mref = MRObj md \/ In md sys) /\
    fn_module f = mod_name md /\ exists n, In (n, MFun f) (mod_members md).
Proof.
  intros icc icf sys mref pkg prefix w r w' f H Hf.
  unfold extract_cases_from_module, M_bind in H. destruct mref as [s|md].
  - unfold M_lift in H. destruct (import_module sys s pkg) as [md|e] eqn:Ei; [|discriminate].
    destruct (import_module_ok _ _ _ _ Ei) as [full [_ [Hin _]]].
    exists md. split; [right; exact Hin|exact (module_scan_own_functions _ _ _ _ _ _ _ H f Hf)].
  - unfold M_ret in H. exists md. split; [left; reflexivity|].
    exact (module_scan_own_functions _ _ _ _ _ _ _ H f Hf).
Qed.

Lemma Forall2_in_r : forall A B (R : A -> B -> Prop) xs ys y,
  Forall2 R xs ys -> In y ys -> exists x, In x xs /\ R x y.
Proof.
  intros A B R xs ys y H; induction H as [|x y' xs ys Hxy _ IH]; intros Hy; [destruct Hy|].
  destruct Hy as [<-|Hy]; [exists x; split; [left; reflexivity|exact Hxy]|].
  destruct (IH Hy) as [x' [Hx' Hr]]. exists x'. split; [right; exact Hx'|exact Hr].
Qed.

Lemma Forall2_in_l : forall A B (R : A -> B -> Prop) xs ys x,
  Forall2 R xs ys -> In x xs -> exists y, In y ys /\ R x y.
Proof.
  intros A B R xs ys x H; induction H as [|x' y xs ys Hxy _ IH]; intros Hx; [destruct Hx|].
  destruct Hx as [<-|Hx]; [exists y; split; [left; reflexivity|exact Hxy]|].
  destruct (IH Hx) as [y' [Hy' Hr]]. exists y'. split; [right; exact Hy'|exact Hr].
Qed.

Lemma collect_provider_origin : forall icc icf sys pfx target prefix c w l w' f,
  collect_provider icc icf sys pfx target prefix c w = (Ok l, w') ->
  In (CaseFun f) l ->
  (c = PvFun f /\ icf f pfx false = true) \/
  exists md, (c = PvModule md \/ In md sys) /\
    fn_module f = mod_name md /\ exists n, In (n, MFun f) (mod_members md).
Proof.
  intros icc icf sys pfx target prefix c w l w' f H Hf.
  unfold collect_provider in H. destruct c as [k|g|s|md| | | ].
  - exfalso. exact (extract_cases_from_class_no_casefun _ _ _ _ _ _ _ _ H f Hf).
  - destruct (icf g pfx false) eqn:Eg; [|discriminate].
    injection H as <- _. destruct Hf as [Hf|[]]. injection Hf as ->. left; split; [reflexivity|exact Eg].
  - right. destruct (String.eqb s ".");
      destruct (extract_cases_from_module_origin _ _ _ _ _ _ _ _ _ _ H Hf) as [md [[Hm|Hm] Hrest]];
      try discriminate; exists md; split; auto.
  - right. destruct (extract_cases_from_module_origin _ _ _ _ _ _ _ _ _ _ H Hf) as [md' [[Hm|Hm] Hrest]].
    + injection Hm as <-. exists md. split; [left; reflexivity|exact Hrest].
    + exists md'. split; [right; exact Hm|exact Hrest].
  - right. unfold M_bind, M_lift in H.
    destruct (import_default_cases_module sys target false) as [md|e] eqn:Ed; [|discriminate].
    destruct (import_default_ok _ _ _ _ Ed) as [nm [_ [Hin _]]].
    destruct (extract_cases_from_module_origin _ _ _ _ _ _ _ _ _ _ H Hf) as [md' [[Hm|Hm] Hrest]].
    + injection Hm as <-. exists md. split; [right; exact Hin|exact Hrest].
    + exists md'. split; [right; exact Hm|exact Hrest].
  - right. unfold M_bind, M_lift in H.
    destruct (import_default_cases_module sys target true) as [md|e] eqn:Ed; [|discriminate].
    destruct (import_default_ok _ _ _ _ Ed) as [nm [_ [Hin _]]].
    destruct (extract_cases_from_module_origin _ _ _ _ _ _ _ _ _ _ H Hf) as [md' [[Hm|Hm] Hrest]].
    + injection Hm as <-. exists md. split; [right; exact Hin|exact Hrest].
    + exists md'. split; [right; exact Hm|exact Hrest].
  - right. destruct (extract_cases_from_module_origin _ _ _ _ _ _ _ _ _ _ H Hf) as [md [[Hm|Hm] Hrest]];
      [discriminate|]. exists md. split; [right; exact Hm|exact Hrest].
Qed.

(** X14: when [get_all_cases] succeeds, every function given directly in
    [cases] passed [is_case_function(c, prefix=CASE_PREFIX_FUN,
    check_prefix=False)]; and every plain case function it returns is either
    one of those functions, or a member, defined there, of a module given in
    [cases] or imported from [sys.modules] (an imported function, a case class
    method or a function of another module is never returned as such). *)
Theorem get_all_cases_case_function_origin :
  forall is_case_class is_case_function sys_modules CASE_PREFIX_FUN matches_tag_query
         target cases prefix w r w',
  get_all_cases is_case_class is_case_function sys_modules CASE_PREFIX_FUN matches_tag_query
                target cases prefix w = (Ok r, w') ->
  (forall f, In (PvFun f) cases -> is_case_function f CASE_PREFIX_FUN false = true) /\
  (forall f, In (CaseFun f) r ->
     (In (PvFun f) cases /\ is_case_function f CASE_PREFIX_FUN false = true) \/
     exists md, (In (PvModule md) cases \/ In md sys_modules) /\
       fn_module f = mod_name md /\ exists n, In (n, MFun f) (mod_members md)).
Proof.
  intros icc icf sys pfx mtq target cases prefix w r w' H.
  unfold get_all_cases, M_bind in H.
  destruct (collect_all icc icf sys pfx target prefix cases [] w) as [[cf|e] w1] eqn:Ec;
    [|discriminate].
  unfold M_ret in H. injection H as Hr _.
  destruct (collect_all_concat _ _ _ _ _ _ _ _ _ _ _ Ec) as [ls [Hls Hcf]].
  split.
  - intros f Hin. destruct (Forall2_in_l _ _ _ _ _ _ Hls Hin) as [l [_ [w2 [w3 Hc]]]].
    simpl in Hc. destruct (icf f pfx false); [reflexivity|discriminate].
  - intros f Hf. subst r cf. apply filter_In in Hf as [Hf _]. simpl in Hf.
    apply in_concat in Hf as [l [Hl Hfl]].
    destruct (Forall2_in_r _ _ _ _ _ _ Hls Hl) as [c [Hc [w2 [w3 Hcol]]]].
    destruct (collect_provider_origin _ _ _ _ _ _ _ _ _ _ _ Hcol Hfl) as [[-> Hok]|[md [[->|Hm] Hrest]]].
    + left. split; [exact Hc|exact Hok].
    + right. exists md. split; [left; exact Hc|exact Hrest].
    + right. exists md. split; [right; exact Hm|exact Hrest].
Qed.

(** ** Instances of the properties on concrete inputs *)

Lemma make_test_ids_from_param_values_ids_witness :
  make_test_ids_from_param_values (fun _ _ _ => "v") (Some ["a"; "b"])
                                  (Some [PTuple [PInt 1; PInt 2]]) = Ok ["v"] /\
  List.length ["v"] = List.length [PTuple [PInt 1; PInt 2]] /\
  py_len (PTuple [PInt 1; PInt 2]) = Ok 2.
Proof.
  assert (H : make_test_ids_from_param_values (fun _ _ _ => "v") (Some ["a"; "b"])
                (Some [PTuple [PInt 1; PInt 2]]) = Ok ["v"]) by reflexivity.
  destruct (proj2 (make_test_ids_from_param_values_ids (fun _ _ _ => "v") ["a"; "b"]
                     [PTuple [PInt 1; PInt 2]] ["v"]) H) as [Hlen Hi].
  split; [exact H|split; [exact Hlen|]].
  destruct (Hi 0 (PTuple [PInt 1; PInt 2]) eq_refl) as [[Hn _]|[_ [Hl _]]];
    [discriminate|exact Hl].
Defined.

Lemma make_test_ids_global_list_witness :
  make_test_ids (fun _ _ _ => "v") (Some (GIdList ["g0"])) [None; Some "x"]
                (Some ["a"]) (Some [PInt 1; PInt 2]) None = Raise IndexError /\
  List.length ["x"; "g1"] = List.length ["g0"; "g1"].
Proof.
  split.
  - apply (proj2 (proj2 (make_test_ids_global_list (fun _ _ _ => "v") ["g0"]
             [None; Some "x"] (Some ["a"]) (Some [PInt 1; PInt 2]) None))).
    exists 1, "x". split; [reflexivity|simpl; lia].
  - apply (proj1 (make_test_ids_global_list (fun _ _ _ => "v") ["g0"; "g1"]
             [Some "x"; None] (Some ["a"]) (Some [PInt 1; PInt 2]) None)).
    reflexivity.
Defined.

Lemma extract_parameterset_info_pointwise_witness :
  exists id m pv, extract_pset_info_single 1 (PParam (Some "x") ["m"] [PInt 2]) = Ok (id, m, pv) /\
    nth_error [None; Some "x"] 1 = Some id /\ nth_error [None; Some ["m"]] 1 = Some m /\
    nth_error [PInt 1; PInt 2] 1 = Some pv.
Proof.
  apply (proj2 (proj2 (proj2 (extract_parameterset_info_pointwise ["a"]
            [PInt 1; PParam (Some "x") ["m"] [PInt 2]] true
            [None; Some "x"] [None; Some ["m"]] [PInt 1; PInt 2] eq_refl))) 1).
  reflexivity.
Defined.

Lemma analyze_parameter_set_ids_witness :
  analyze_parameter_set (fun _ _ _ => "v") (Some (mkPMark ["a"] [PInt 1] None)) (Some ["a"])
                        None None true
    = Raise (ValueError "Either provide a pmark OR the details") /\
  nth_error ["x"; "v"] 0 = Some "x".
Proof.
  split.
  - apply (proj1 (analyze_parameter_set_ids) (fun _ _ _ => "v") (mkPMark ["a"] [PInt 1] None)
             (Some ["a"]) None None true).
    left; discriminate.
  - apply (proj2 (proj2 (proj2 (proj2 (proj2 (analyze_parameter_set_ids)) (fun _ _ _ => "v") ["a"]
             [PParam (Some "x") [] [PInt 1]; PInt 2] true ["x"; "v"] [Some []; None]
             [PInt 1; PInt 2] eq_refl))) 0 "x" [] [PInt 1]).
    reflexivity.
Defined.

Lemma cart_product_pytest_itertools_witness :
  _cart_product_pytest [["a"]; ["b"]] [[PInt 1; PParam None ["m"] [PInt 2]]; [PInt 3]]
    = Ok [([], [PInt 1; PInt 3]); (["m"], [PInt 2; PInt 3])].
Proof.
  apply (cart_product_pytest_itertools [["a"]; ["b"]]
           [[PInt 1; PParam None ["m"] [PInt 2]]; [PInt 3]]).
  - discriminate.
  - reflexivity.
  - repeat constructor.
  - repeat constructor.
Defined.

(** Two cases with the same id, one in each of two unrelated classes. *)
Lemma get_parametrize_args_fixtures_witness :
  exists l st',
    get_parametrize_args (fun _ => []) (fun _ _ => None) argvalue_out (fun x => x)
      (fun vals _ => vals)
      [mkCaseFun (case_meth "case_f" 3) (Some 0) "f" [] ["request"] false [];
       mkCaseFun (case_meth "case_f" 9) (Some 1) "f" [] ["request"] false []]
      (fun _ _ => None) = (Ok l, st') /\
    getattr (fun _ => []) (fun _ _ => None) st' (HClass 0) "f"
      = Some (AFixture "f" (case_meth "case_f" 3)) /\
    getattr (fun _ => []) (fun _ _ => None) st' (HClass 1) "f"
      = Some (AFixture "f" (case_meth "case_f" 9)) /\
    st' (HModule "other") "x" = None.
Proof.
  eexists. eexists. split; [reflexivity|].
  match goal with
  | |- context [getattr _ _ ?st' (HClass 0) _] =>
      pose proof (get_parametrize_args_fixtures (fun _ => []) (fun _ _ => None) argvalue_out
                    (fun x => x) (fun vals _ => vals)
                    [mkCaseFun (case_meth "case_f" 3) (Some 0) "f" [] ["request"] false [];
                     mkCaseFun (case_meth "case_f" 9) (Some 1) "f" [] ["request"] false []]
                    (fun _ _ => None) _ st' eq_refl) as H
  end.
  cbv zeta in H. destruct H as [_ [_ [H3 H4]]].
  change (filter needs_fixture
            [mkCaseFun (case_meth "case_f" 3) (Some 0) "f" [] ["request"] false [];
             mkCaseFun (case_meth "case_f" 9) (Some 1) "f" [] ["request"] false []])
    with [mkCaseFun (case_meth "case_f" 3) (Some 0) "f" [] ["request"] false [];
          mkCaseFun (case_meth "case_f" 9) (Some 1) "f" [] ["request"] false []] in H3, H4.
  inversion H3 as [|x1 l1 Ha H3' Ex1]. inversion H3' as [|x2 l2 Hb _ Ex2].
  split; [exact (proj2 Ha)|split; [exact (proj2 Hb)|]].
  apply H4. intros c [<-|[<-|[]]]; discriminate.
Defined.

Lemma get_parametrize_args_no_fixture_witness :
  exists l,
    get_parametrize_args (fun _ => []) (fun _ _ => None) argvalue_out (fun x => x) (fun vals _ => vals)
      [mkCaseFun (case_meth "case_p" 5) None "p" [] [] false [];
       mkCaseFun (case_meth "case_q" 7) (Some 0) "q" [] [] false []]
      (fun _ _ => None) = (Ok l, fun _ _ => None) /\
    List.length l = 2.
Proof.
  apply (get_parametrize_args_no_fixture (fun _ => []) (fun _ _ => None) argvalue_out (fun x => x) (fun vals _ => vals)
           [mkCaseFun (case_meth "case_p" 5) None "p" [] [] false [];
            mkCaseFun (case_meth "case_q" 7) (Some 0) "q" [] [] false []]
           (fun _ _ => None)).
  repeat constructor.
Defined.

Lemma import_default_cases_module_names_witness :
  (In (mkModule "pkg.test_foo_cases" []) [mkModule "pkg.test_foo_cases" []; mkModule "pkg.cases_foo" []] /\
   mod_name (mkModule "pkg.test_foo_cases" []) = (tf_module test_foo ++ "_cases")%string) /\
  (In (mkModule "pkg.cases_foo" []) [mkModule "pkg.test_foo_cases" []; mkModule "pkg.cases_foo" []] /\
   mod_name (mkModule "pkg.cases_foo" []) = ("pkg" ++ ".cases_" ++ "foo")%string).
Proof.
  split.
  - apply (proj1 (import_default_cases_module_names
             [mkModule "pkg.test_foo_cases" []; mkModule "pkg.cases_foo" []] test_foo
             (mkModule "pkg.test_foo_cases" []))).
    reflexivity.
  - apply (proj2 (import_default_cases_module_names
             [mkModule "pkg.test_foo_cases" []; mkModule "pkg.cases_foo" []] test_foo
             (mkModule "pkg.cases_foo" [])) "pkg" "foo"); reflexivity.
Defined.

Lemma import_default_cases_module_auto2_edges_witness :
  import_default_cases_module [] (mkTestFun "pkg.foo" "<function test_x>") true = Raise AssertionError /\
  exists msg, import_default_cases_module [] (mkTestFun "test_foo" "<function test_x>") true
                = Raise (TypeError msg).
Proof.
  split.
  - apply (proj1 import_default_cases_module_auto2_edges [] (mkTestFun "pkg.foo" "<function test_x>")
             "foo"); [reflexivity|left; exists "pkg"; reflexivity|reflexivity].
  - apply (proj2 import_default_cases_module_auto2_edges [] (mkTestFun "test_foo" "<function test_x>")
             "foo"); reflexivity.
Defined.

Lemma collect_provider_relative_module_witness :
  collect_provider is_case_class_spec is_case_function_spec [mkModule "pkg.cases_foo" []] "case_"
                   test_foo "case_" (PvModuleName ".cases_foo") []
  = collect_provider is_case_class_spec is_case_function_spec [mkModule "pkg.cases_foo" []] "case_"
                     test_foo "case_" (PvModule (mkModule "pkg.cases_foo" [])) [] /\
  exists msg, collect_provider is_case_class_spec is_case_function_spec [] "case_"
                               (mkTestFun "test_foo" "<function test_foo>") "case_"
                               (PvModuleName ".cases_foo") [] = (Raise (TypeError msg), []).
Proof.
  split.
  - apply (proj1 collect_provider_relative_module is_case_class_spec is_case_function_spec
             [mkModule "pkg.cases_foo" []] "case_" test_foo "case_" "pkg" "test_foo" "cases_foo" []);
      first [reflexivity|discriminate].
  - apply (proj2 collect_provider_relative_module is_case_class_spec is_case_function_spec []
             "case_" (mkTestFun "test_foo" "<function test_foo>") "case_" "cases_foo" []);
      first [reflexivity|discriminate].
Defined.

Lemma extract_cases_from_module_own_functions_witness :
  fn_module case_a = mod_name cases_module /\ exists n, In (n, MFun case_a) (mod_members cases_module).
Proof.
  apply (extract_cases_from_module_own_functions is_case_class_spec is_case_function_spec []
           cases_module None "case_" []
           [CaseFun case_a; CaseFun case_b;
            CasePartial (case_meth "case_x" 31) "CaseNested" "CaseNested" "case_x" None [];
            CasePartial (case_meth "case_y" 33) "CaseNested" "CaseNested" "case_y" None []] []).
  - reflexivity.
  - left; reflexivity.
Defined.

Lemma get_all_cases_case_function_origin_witness :
  is_case_function_spec case_b "case_" false = true /\
  ((In (PvFun case_a) [PvFun case_b; PvModule cases_module] /\
    is_case_function_spec case_a "case_" false = true) \/
   exists md, (In (PvModule md) [PvFun case_b; PvModule cases_module] \/ In md []) /\
     fn_module case_a = mod_name md /\ exists n, In (n, MFun case_a) (mod_members md)).
Proof.
  destruct (get_all_cases_case_function_origin is_case_class_spec is_case_function_spec [] "case_"
              matches_tag_query_spec test_foo [PvFun case_b; PvModule cases_module] "case_" []
              [CaseFun case_b; CaseFun case_a; CaseFun case_b;
               CasePartial (case_meth "case_x" 31) "CaseNested" "CaseNested" "case_x" None [];
               CasePartial (case_meth "case_y" 33) "CaseNested" "CaseNested" "case_y" None []] []
              eq_refl) as [H1 H2].
  split.
  - apply H1. left; reflexivity.
  - apply H2. right; left; reflexivity.
Defined.


